(** * Password_Manager_AES: the vault engine and the strength scorer

    A shallow embedding of [password_manager.py] (class [PasswordManager])
    and [password_strength_checker.py], followed by the properties of the
    specification that were checked against them.

    Conventions of the embedding:
    - a Python [bytes] object is a [list Byte.byte]; a Python [int] is a [Z];
      a Python [str] is a [string] (a [list ascii] where it is indexed);
    - an attribute that [__init__] sets to [None] is an [option];
    - a method is a function from the object and the outside world (the
      container file, the entropy source, the clock) to an outcome and
      the new object and world; a raised exception is the outcome [Raise];
    - the third-party and standard-library functions the engine calls
      (PBKDF2-HMAC, the AES block transform, the JSON and UTF-8 codecs) are
      the fields of the class [Library]; what the proofs need of them is
      stated as section hypotheses. *)

From Stdlib Require Import ZArith Ascii.
From Stdlib Require Strings.Byte.
From stdpp Require Import gmap strings list sorting.

Local Open Scope Z_scope.

(** ** Exceptions and outcomes *)

Inductive exn : Set :=
  | IndexError
  | ValueError
  | TypeError
  | OSError
  | KeyError
  | UnicodeDecodeError
  | JSONDecodeError.

Inductive outcome (A : Type) : Type :=
  | Ret (a : A)
  | Raise (e : exn).
Arguments Ret {A} a.
Arguments Raise {A} e.

Definition obind {A B} (o : outcome A) (f : A -> outcome B) : outcome B :=
  match o with
  | Ret a => f a
  | Raise e => Raise e
  end.

Notation "x <-! o ; k" := (obind o (fun x => k))
  (at level 20, o at level 100, k at level 200, only parsing).

(** ** Byte strings *)

Abbreviation byte := Byte.byte.
Abbreviation bytes := (list Byte.byte).

#[global] Instance byte_eq_dec : EqDecision byte := Byte.byte_eq_dec.

(** [bytes(ints)]: every element must be in [range(256)]. *)
Definition byte_of_int (n : Z) : outcome byte :=
  if (0 <=? n) && (n <? 256)
  then match Byte.of_nat (Z.to_nat n) with
       | Some b => Ret b
       | None => Raise ValueError
       end
  else Raise ValueError.

Fixpoint bytes_of_ints (l : list Z) : outcome bytes :=
  match l with
  | [] => Ret []
  | n :: l' =>
      b <-! byte_of_int n;
      bs <-! bytes_of_ints l';
      Ret (b :: bs)
  end.

Definition int_of_byte (b : byte) : Z := Z.of_nat (Byte.to_nat b).

Definition len {A} (l : list A) : Z := Z.of_nat (length l).

(** Python's [[x] * n]: the empty list when [n <= 0]. *)
Definition list_times {A} (x : A) (n : Z) : list A := replicate (Z.to_nat n) x.

(** Python indexing [l[i]] with a possibly negative index. *)
Definition py_index {A} (l : list A) (i : Z) : outcome A :=
  let j := if i <? 0 then i + len l else i in
  if (0 <=? j) && (j <? len l)
  then match l !! Z.to_nat j with
       | Some x => Ret x
       | None => Raise IndexError
       end
  else Raise IndexError.

(** Python slicing [l[start:stop]]; [None] is an omitted bound.  A negative
    bound counts from the end, and every bound is clamped to [0..len]. *)
Definition py_clamp (n i : Z) : Z :=
  if i <? 0 then Z.max 0 (i + n) else Z.min i n.

Definition py_slice {A} (l : list A) (start stop : option Z) : list A :=
  let a := from_option (py_clamp (len l)) 0 start in
  let b := from_option (py_clamp (len l)) (len l) stop in
  take (Z.to_nat (b - a)) (drop (Z.to_nat a) l).

(** ** PKCS#7 padding ([PasswordManager._pad], [PasswordManager._unpad]) *)

Definition _pad (data : bytes) : outcome bytes :=
  let block_size := 16 in
  let padding_length := block_size - (len data mod block_size) in
  padding <-! bytes_of_ints (list_times padding_length padding_length);
  Ret (data ++ padding).

Definition _unpad (padded_data : bytes) : outcome bytes :=
  last_byte <-! py_index padded_data (-1);
  let padding_length := int_of_byte last_byte in
  Ret (py_slice padded_data None (Some (- padding_length))).

(** ** The data model *)

(** One credential: the dict with the keys ["password"], ["url"], ["notes"]
    and ["date_modified"] that [add_password] stores. *)
Record Entry : Set := mkEntry {
  password : string;
  url : string;
  notes : string;
  date_modified : string
}.

#[global] Instance Entry_eq_dec : EqDecision Entry.
Proof. solve_decision. Defined.

(** [self.vault]: service -> username -> entry. *)
Abbreviation Vault := (gmap string (gmap string Entry)).

(** ** Library functions called by the engine *)

Class Library := {
  (** [PBKDF2HMAC(SHA256, length=32, salt, iterations=100000).derive(pw)] *)
  pbkdf2_hmac_sha256 : bytes -> bytes -> bytes;
  (** the AES block transform and its inverse: key, 16-byte block *)
  aes_encrypt_block : bytes -> bytes -> bytes;
  aes_decrypt_block : bytes -> bytes -> bytes;
  (** [str.encode('utf-8')] and [bytes.decode('utf-8')] *)
  utf8_encode : string -> bytes;
  utf8_decode : bytes -> outcome string;
  (** [json.dumps] and [json.loads] at the type of the vault: [json_loads]
      raises on a document that is not JSON *)
  json_dumps : Vault -> string;
  json_loads : string -> outcome Vault
}.

(** ** AES in CBC mode, as driven through [Cipher(AES(key), CBC(iv))] *)

Definition xor_byte (a b : byte) : byte :=
  let '(a0, (a1, (a2, (a3, (a4, (a5, (a6, a7))))))) := Byte.to_bits a in
  let '(b0, (b1, (b2, (b3, (b4, (b5, (b6, b7))))))) := Byte.to_bits b in
  Byte.of_bits (xorb a0 b0, (xorb a1 b1, (xorb a2 b2, (xorb a3 b3,
               (xorb a4 b4, (xorb a5 b5, (xorb a6 b6, xorb a7 b7))))))).

Fixpoint xor_bytes (x y : bytes) : bytes :=
  match x, y with
  | a :: x', b :: y' => xor_byte a b :: xor_bytes x' y'
  | _, _ => []
  end.

(** [Cipher(algorithms.AES(key), modes.CBC(iv))]: [None] is not bytes-like
    ([TypeError]); the key must have 128, 192 or 256 bits and the IV the
    size of a block ([ValueError]). *)
Definition Cipher (key iv : option bytes) : outcome (bytes * bytes) :=
  match key, iv with
  | Some k, Some i =>
      if bool_decide (len k = 16 \/ len k = 24 \/ len k = 32)
      then if bool_decide (len i = 16) then Ret (k, i) else Raise ValueError
      else Raise ValueError
  | _, _ => Raise TypeError
  end.

Section Cbc.
Context `{Library}.

(** [n] blocks of [data], chained from [prev]. *)
Fixpoint cbc_encrypt_blocks (n : nat) (key prev data : bytes) : bytes :=
  match n with
  | O => []
  | S n' =>
      let c := aes_encrypt_block key (xor_bytes (take 16 data) prev) in
      c ++ cbc_encrypt_blocks n' key c (drop 16 data)
  end.

Fixpoint cbc_decrypt_blocks (n : nat) (key prev data : bytes) : bytes :=
  match n with
  | O => []
  | S n' =>
      let c := take 16 data in
      xor_bytes (aes_decrypt_block key c) prev
        ++ cbc_decrypt_blocks n' key c (drop 16 data)
  end.

(** [encryptor.update(data) + encryptor.finalize()]: [finalize] raises
    when the input is not a whole number of blocks. *)
Definition encryptor_run (cipher : bytes * bytes) (data : bytes)
  : outcome bytes :=
  let '(key, iv) := cipher in
  if len data mod 16 =? 0
  then Ret (cbc_encrypt_blocks (length data / 16)%nat key iv data)
  else Raise ValueError.

Definition decryptor_run (cipher : bytes * bytes) (data : bytes)
  : outcome bytes :=
  let '(key, iv) := cipher in
  if len data mod 16 =? 0
  then Ret (cbc_decrypt_blocks (length data / 16)%nat key iv data)
  else Raise ValueError.

(** [PasswordManager._encrypt] *)
Definition _encrypt (data : bytes) (key iv : option bytes) : outcome bytes :=
  cipher <-! Cipher key iv;
  padded_data <-! _pad data;
  encryptor_run cipher padded_data.

(** [PasswordManager._decrypt] *)
Definition _decrypt (encrypted_data : bytes) (key iv : option bytes)
  : outcome bytes :=
  cipher <-! Cipher key iv;
  padded_data <-! decryptor_run cipher encrypted_data;
  _unpad padded_data.

(** [PasswordManager._derive_key]: the KDF rejects a salt that is not
    bytes. *)
Definition _derive_key (password : string) (salt : option bytes)
  : outcome bytes :=
  match salt with
  | Some s => Ret (pbkdf2_hmac_sha256 (utf8_encode password) s)
  | None => Raise TypeError
  end.
End Cbc.

(** ** The object and the world around it *)

(** The attributes of a [PasswordManager] instance. *)
Record PasswordManager : Type := mkPM {
  vault_file : string;
  master_key : option bytes;
  vault : Vault;
  salt : option bytes;
  iv : option bytes;
  initialized : bool
}.

(** [PasswordManager.__init__] *)
Definition __init__ (vault_file : string) : PasswordManager :=
  {| vault_file := vault_file; master_key := None; vault := ∅;
     salt := None; iv := None; initialized := false |}.

(** What can go wrong with one [open]: the call itself fails, or the
    transfer fails after [n] bytes have reached the file. *)
Inductive io_fault : Set :=
  | OpenFails
  | TransferFails (n : nat).

(** The world: the files by path, the outcome of the coming [open] calls
    (none listed: no fault), the entropy source behind [os.urandom] and
    [secrets] with the number of draws made, and the date of the clock. *)
Record World : Type := mkWorld {
  fs : gmap string bytes;
  faults : list (option io_fault);
  entropy : nat -> nat;
  drawn : nat;
  today : string
}.

Record Mem : Type := mkMem { self : PasswordManager; world : World }.

(** A method: state passing with exceptions; the state reached when an
    exception is raised is kept. *)
Definition M (A : Type) : Type := Mem -> outcome A * Mem.

Definition ret {A} (a : A) : M A := fun s => (Ret a, s).
Definition raise {A} (e : exn) : M A := fun s => (Raise e, s).
Definition lift {A} (o : outcome A) : M A := fun s => (o, s).

Definition bind {A B} (m : M A) (f : A -> M B) : M B :=
  fun s =>
    match m s with
    | (Ret a, s') => f a s'
    | (Raise e, s') => (Raise e, s')
    end.

(** [try: m  except Exception: h] *)
Definition try_except {A} (m h : M A) : M A :=
  fun s =>
    match m s with
    | (Ret a, s') => (Ret a, s')
    | (Raise _, s') => h s'
    end.

Declare Scope method_scope.
Delimit Scope method_scope with M.
Bind Scope method_scope with M.
Notation "x <- m ; k" := (bind m (fun x => k))
  (at level 20, m at level 100, k at level 200, only parsing) : method_scope.
Notation "m ;; k" := (bind m (fun _ => k))
  (at level 100, k at level 200, right associativity, only parsing)
  : method_scope.
Local Open Scope method_scope.

Definition get_self : M PasswordManager := fun s => (Ret (self s), s).
Definition get_world : M World := fun s => (Ret (world s), s).
Definition put_self (pm : PasswordManager) : M unit :=
  fun s => (Ret tt, {| self := pm; world := world s |}).
Definition put_world (w : World) : M unit :=
  fun s => (Ret tt, {| self := self s; world := w |}).

(** Attribute assignments [self.x = v]. *)
Definition set_master_key (v : option bytes) : M unit :=
  pm <- get_self;
  put_self {| vault_file := vault_file pm; master_key := v; vault := vault pm;
              salt := salt pm; iv := iv pm; initialized := initialized pm |}.
Definition set_vault (v : Vault) : M unit :=
  pm <- get_self;
  put_self {| vault_file := vault_file pm; master_key := master_key pm;
              vault := v; salt := salt pm; iv := iv pm;
              initialized := initialized pm |}.
Definition set_salt (v : option bytes) : M unit :=
  pm <- get_self;
  put_self {| vault_file := vault_file pm; master_key := master_key pm;
              vault := vault pm; salt := v; iv := iv pm;
              initialized := initialized pm |}.
Definition set_iv (v : option bytes) : M unit :=
  pm <- get_self;
  put_self {| vault_file := vault_file pm; master_key := master_key pm;
              vault := vault pm; salt := salt pm; iv := v;
              initialized := initialized pm |}.
Definition set_initialized (v : bool) : M unit :=
  pm <- get_self;
  put_self {| vault_file := vault_file pm; master_key := master_key pm;
              vault := vault pm; salt := salt pm; iv := iv pm;
              initialized := v |}.

(** *** The operating system *)

Definition set_fs (f : gmap string bytes) (w : World) : World :=
  {| fs := f; faults := faults w; entropy := entropy w; drawn := drawn w;
     today := today w |}.
Definition set_faults (l : list (option io_fault)) (w : World) : World :=
  {| fs := fs w; faults := l; entropy := entropy w; drawn := drawn w;
     today := today w |}.
Definition set_drawn (n : nat) (w : World) : World :=
  {| fs := fs w; faults := faults w; entropy := entropy w; drawn := n;
     today := today w |}.

(** The outcome of the next [open]. *)
Definition next_fault : M (option io_fault) :=
  w <- get_world;
  put_world (set_faults (tail (faults w)) w);;
  ret (mjoin (head (faults w))).

(** [os.path.exists(path)] *)
Definition os_path_exists (path : string) : M bool :=
  w <- get_world;
  ret (bool_decide (is_Some (fs w !! path))).

(** [with open(path, "rb") as f: f.read()] *)
Definition read_file (path : string) : M bytes :=
  fault <- next_fault;
  w <- get_world;
  match fault, fs w !! path with
  | None, Some data => ret data
  | _, _ => raise OSError
  end.

(** [with open(path, "wb") as f: f.write(data)], where [data] is an
    expression evaluated once the file is open: opening truncates the
    file, and a failing write leaves what had been written. *)
Definition write_file (path : string) (data : outcome bytes) : M unit :=
  fault <- next_fault;
  match fault with
  | Some OpenFails => raise OSError
  | _ =>
      w <- get_world;
      put_world (set_fs (<[path := []]> (fs w)) w);;
      d <- lift data;
      w <- get_world;
      match fault with
      | Some (TransferFails n) =>
          put_world (set_fs (<[path := take n d]> (fs w)) w);;
          raise OSError
      | _ => put_world (set_fs (<[path := d]> (fs w)) w)
      end
  end.

(** One draw from the entropy source. *)
Definition draw : M nat :=
  w <- get_world;
  put_world (set_drawn (S (drawn w)) w);;
  ret (entropy w (drawn w)).

Fixpoint draws (n : nat) : M (list nat) :=
  match n with
  | O => ret []
  | S n' => x <- draw; xs <- draws n'; ret (x :: xs)
  end.

Definition byte_of_draw (x : nat) : byte :=
  default Byte.x00 (Byte.of_nat (x mod 256)).

(** [os.urandom(n)] *)
Definition os_urandom (n : nat) : M bytes :=
  xs <- draws n; ret (map byte_of_draw xs).

(** [secrets.choice(seq)]: [IndexError] on an empty sequence, else the
    element at a position below [len(seq)]. *)
Definition secrets_choice {A} (seq : list A) : M A :=
  match seq with
  | [] => raise IndexError
  | _ => x <- draw; lift (py_index seq (Z.of_nat (x mod length seq)))
  end.

(** [secrets.compare_digest(a, b)] on byte strings. *)
Definition _secure_compare (a : bytes) (b : option bytes) : outcome bool :=
  match b with
  | Some b' => Ret (bool_decide (a = b'))
  | None => Raise TypeError
  end.

(** [a + b] on byte strings. *)
Definition bytes_add (a b : option bytes) : outcome bytes :=
  match a, b with
  | Some x, Some y => Ret (x ++ y)
  | _, _ => Raise TypeError
  end.

(** ** The constants of Python's [string] module *)

Definition ascii_lowercase : string := "abcdefghijklmnopqrstuvwxyz".
Definition ascii_uppercase : string := "ABCDEFGHIJKLMNOPQRSTUVWXYZ".
Definition ascii_letters : string := ascii_lowercase +:+ ascii_uppercase.
Definition digits : string := "0123456789".
(** [string.punctuation]; the second character is the double quote. *)
Definition punctuation : string :=
  String "!" (String (ascii_of_nat 34) "#$%&'()*+,-./:;<=>?@[\]^_`{|}~").

(** The value a call returns when it is not of one fixed Python type:
    [initialize] has no [return] statement. *)
Inductive pyvalue : Set :=
  | PyNone
  | PyBool (b : bool).

(** [sorted] on strings: ascending in the order of the code points. *)
Definition str_le (a b : string) : Prop := Is_true (String.leb a b).

#[global] Instance str_le_dec a b : Decision (str_le a b).
Proof. unfold str_le. apply _. Defined.

Definition sorted (l : list string) : list string := merge_sort str_le l.

(** ** The methods of [PasswordManager] *)

Section Methods.
Context `{Library}.

(** [PasswordManager.save_vault] *)
Definition save_vault : M bool :=
  pm <- get_self;
  if negb (initialized pm) then ret false
  else
    try_except
      (let vault_json := utf8_encode (json_dumps (vault pm)) in
       encrypted_data <- lift (_encrypt vault_json (master_key pm) (iv pm));
       write_file (vault_file pm)
         (salt_iv <-! bytes_add (salt pm) (iv pm);
          Ret (salt_iv ++ encrypted_data));;
       ret true)
      (ret false).

(** [PasswordManager._create_new_vault] *)
Definition _create_new_vault (master_password : string) : M unit :=
  new_salt <- os_urandom 16;
  set_salt (Some new_salt);;
  new_iv <- os_urandom 16;
  set_iv (Some new_iv);;
  pm <- get_self;
  key <- lift (_derive_key master_password (salt pm));
  set_master_key (Some key);;
  set_vault ∅;;
  set_initialized true;;
  save_vault;;
  ret tt.

(** [PasswordManager._load_vault] *)
Definition _load_vault (encrypted_data : bytes) (master_password : string)
  : M bool :=
  try_except
    (let salt_iv := py_slice encrypted_data None (Some 32) in
     set_salt (Some (py_slice salt_iv None (Some 16)));;
     set_iv (Some (py_slice salt_iv (Some 16) (Some 32)));;
     pm <- get_self;
     key <- lift (_derive_key master_password (salt pm));
     set_master_key (Some key);;
     let cipher_text := py_slice encrypted_data (Some 32) None in
     pm <- get_self;
     decrypted_data <- lift (_decrypt cipher_text (master_key pm) (iv pm));
     text <- lift (utf8_decode decrypted_data);
     v <- lift (json_loads text);
     set_vault v;;
     set_initialized true;;
     ret true)
    (set_initialized false;;
     ret false).

(** [PasswordManager.initialize] *)
Definition initialize (master_password : string) : M pyvalue :=
  pm <- get_self;
  file_exists <- os_path_exists (vault_file pm);
  if file_exists then
    encrypted_data <- read_file (vault_file pm);
    (if len encrypted_data =? 0
     then _create_new_vault master_password
     else (_load_vault encrypted_data master_password;; ret tt));;
    ret PyNone
  else
    _create_new_vault master_password;;
    ret PyNone.

(** [PasswordManager.generate_password] *)
Fixpoint choices (n : nat) (chars : list ascii) : M (list ascii) :=
  match n with
  | O => ret []
  | S n' => c <- secrets_choice chars; cs <- choices n' chars; ret (c :: cs)
  end.

Definition char_pool (include_uppercase include_lowercase include_digits
                      include_special : bool) : string :=
  let chars := "" in
  let chars := if include_uppercase then chars +:+ ascii_uppercase
               else chars in
  let chars := if include_lowercase then chars +:+ ascii_lowercase
               else chars in
  let chars := if include_digits then chars +:+ digits else chars in
  let chars := if include_special then chars +:+ punctuation else chars in
  if bool_decide (chars = "")
  then ascii_letters +:+ digits +:+ punctuation
  else chars.

Definition generate_password (length : Z)
    (include_uppercase include_lowercase include_digits
     include_special : bool) : M string :=
  let chars := char_pool include_uppercase include_lowercase include_digits
                         include_special in
  cs <- choices (Z.to_nat length) (String.list_ascii_of_string chars);
  ret (String.string_of_list_ascii cs).

(** [PasswordManager._get_current_date] *)
Definition _get_current_date : M string :=
  w <- get_world;
  ret (today w).

(** [PasswordManager.add_password]; [password] is [None] when the caller
    leaves it out. *)
Definition add_password (service username : string)
    (password : option string) (url notes : string) : M bool :=
  pm <- get_self;
  if negb (initialized pm) then ret false
  else
    password <- match password with
                | None => generate_password 16 true true true true
                | Some p => ret p
                end;
    pm <- get_self;
    (if bool_decide (is_Some (vault pm !! service)) then ret tt
     else set_vault (<[service := ∅]> (vault pm)));;
    date <- _get_current_date;
    let entry := {| password := password; url := url; notes := notes;
                    date_modified := date |} in
    pm <- get_self;
    match vault pm !! service with
    | Some usernames =>
        set_vault (<[service := <[username := entry]> usernames]> (vault pm))
    | None => raise KeyError
    end;;
    save_vault.

(** [PasswordManager.get_password] *)
Definition get_password (service username : string) : M (option Entry) :=
  pm <- get_self;
  if negb (initialized pm) then ret None
  else
    match vault pm !! service with
    | Some usernames =>
        match usernames !! username with
        | Some entry => ret (Some entry)
        | None => ret None
        end
    | None => ret None
    end.

(** [PasswordManager.remove_password]; [username] is [None] when the
    caller leaves it out. *)
Definition remove_password (service : string) (username : option string)
  : M bool :=
  pm <- get_self;
  if negb (initialized pm) then ret false
  else
    match vault pm !! service with
    | Some usernames =>
        match username with
        | None =>
            set_vault (delete service (vault pm));;
            save_vault
        | Some u =>
            if bool_decide (is_Some (usernames !! u)) then
              let usernames' := delete u usernames in
              set_vault (<[service := usernames']> (vault pm));;
              pm <- get_self;
              (if bool_decide (usernames' = ∅)
               then set_vault (delete service (vault pm))
               else ret tt);;
              save_vault
            else ret false
        end
    | None => ret false
    end.

(** [PasswordManager.get_all_services] *)
Definition get_all_services : M (list string) :=
  pm <- get_self;
  if negb (initialized pm) then ret []
  else ret (sorted (map fst (map_to_list (vault pm)))).

(** [PasswordManager.get_usernames] *)
Definition get_usernames (service : string) : M (list string) :=
  pm <- get_self;
  match initialized pm, vault pm !! service with
  | true, Some usernames => ret (sorted (map fst (map_to_list usernames)))
  | _, _ => ret []
  end.

(** [PasswordManager.change_master_password] *)
Definition change_master_password (current_password
                                   new_master_password : string) : M bool :=
  pm <- get_self;
  if negb (initialized pm) then ret false
  else
    try_except
      (pm <- get_self;
       test_key <- lift (_derive_key current_password (salt pm));
       matches <- lift (_secure_compare test_key (master_key pm));
       if negb matches then ret false
       else
         new_salt <- os_urandom 16;
         new_key <- lift (_derive_key new_master_password (Some new_salt));
         pm <- get_self;
         let old_salt := salt pm in
         let old_key := master_key pm in
         set_salt (Some new_salt);;
         set_master_key (Some new_key);;
         saved <- save_vault;
         if saved then ret true
         else
           set_salt old_salt;;
           set_master_key old_key;;
           ret false)
      (ret false).
End Methods.

(** ** The strength scorer ([password_strength_checker.py])

    Characters are classified on the ASCII range, where [str.islower],
    [str.isupper], [str.isdigit] and [str.isalnum] are the letter and digit
    intervals; passwords are taken to be ASCII strings. *)

Definition in_range (lo hi c : ascii) : bool :=
  (nat_of_ascii lo <=? nat_of_ascii c)%nat
  && (nat_of_ascii c <=? nat_of_ascii hi)%nat.

Definition islower (c : ascii) : bool := in_range "a" "z" c.
Definition isupper (c : ascii) : bool := in_range "A" "Z" c.
Definition isdigit (c : ascii) : bool := in_range "0" "9" c.
Definition isalnum (c : ascii) : bool := islower c || isupper c || isdigit c.

(** [str.lower] *)
Definition lower_char (c : ascii) : ascii :=
  if isupper c then ascii_of_nat (nat_of_ascii c + 32) else c.
Definition lower (s : list ascii) : list ascii := map lower_char s.

(** [sub in s] on strings *)
Fixpoint starts_with (sub s : list ascii) : bool :=
  match sub, s with
  | [], _ => true
  | a :: sub', c :: s' => Ascii.eqb a c && starts_with sub' s'
  | _ :: _, [] => false
  end.

Fixpoint str_in (sub s : list ascii) : bool :=
  starts_with sub s
  || match s with
     | [] => false
     | _ :: s' => str_in sub s'
     end.

(** *** The fragment of Python's regular expressions the scorer uses *)

Inductive regex : Set :=
  | RAny                              (* [.]: any character but a newline *)
  | RLit (c : ascii)                  (* a literal character *)
  | RGroup (r : regex)                (* [( r )] *)
  | RSeq (r1 r2 : regex)              (* [r1 r2] *)
  | RAtLeast (n : nat) (r : regex).   (* [r{n,}] *)

Definition matcher : Type := list ascii -> (list ascii -> bool) -> bool.

(** up to [fuel] further repetitions of [m] *)
Fixpoint rstar (m : matcher) (fuel : nat) : matcher :=
  fun s k =>
    match fuel with
    | O => k s
    | S fuel' => m s (fun s' => rstar m fuel' s' k) || k s
    end.

Fixpoint rat_least (m : matcher) (n fuel : nat) : matcher :=
  fun s k =>
    match n with
    | O => rstar m fuel s k
    | S n' => m s (fun s' => rat_least m n' fuel s' k)
    end.

(** [rmatch r s k]: [r] matches a prefix of [s] whose rest satisfies [k]. *)
Fixpoint rmatch (r : regex) : matcher :=
  fun s k =>
    match r with
    | RAny =>
        match s with
        | c :: s' => negb (Ascii.eqb c (ascii_of_nat 10)) && k s'
        | [] => false
        end
    | RLit a =>
        match s with
        | c :: s' => Ascii.eqb c a && k s'
        | [] => false
        end
    | RGroup r' => rmatch r' s k
    | RSeq r1 r2 => rmatch r1 s (fun s' => rmatch r2 s' k)
    | RAtLeast n r' => rat_least (rmatch r') n (length s) s k
    end.

(** [re.search(r, s)] as a truth value: a match at some position. *)
Fixpoint re_search (r : regex) (s : list ascii) : bool :=
  rmatch r s (fun _ => true)
  || match s with
     | [] => false
     | _ :: s' => re_search r s'
     end.

(** What the documentation of the scorer calls repeating characters: a run
    of three equal characters. *)
Fixpoint has_repeated_run (s : list ascii) : bool :=
  match s with
  | a :: t =>
      match t with
      | b :: c :: _ => Ascii.eqb a b && Ascii.eqb b c || has_repeated_run t
      | _ => false
      end
  | [] => false
  end.

(** The pattern of the source, the raw string literal [(.)\\1{2,}] with
    its two backslashes: a group of any character, then an escaped (so
    literal) backslash, then the character [1] at least twice. *)
Definition repeat_pattern : regex :=
  RSeq (RGroup RAny) (RSeq (RLit "\") (RAtLeast 2 (RLit "1"))).

Definition sequences : list (list ascii) :=
  [String.list_ascii_of_string "abcdefghijklmnopqrstuvwxyz";
   String.list_ascii_of_string "0123456789"].

(** The inner loop over [i]: does some window [seq[i:i+3]] occur in the
    lowered password ([break] leaves the loop at the first one). *)
Definition has_window (sq pw : list ascii) : bool :=
  existsb
    (fun i => str_in (py_slice sq (Some (Z.of_nat i)) (Some (Z.of_nat i + 3)))
                     (lower pw))
    (seq 0 (Z.to_nat (len sq - 2))).

(** The outer loop over the sequences, threading [score] and [feedback]. *)
Fixpoint sequential_check (seqs : list (list ascii)) (pw : list ascii)
    (acc : Z * list string) : Z * list string :=
  match seqs with
  | [] => acc
  | sq :: seqs' =>
      let '(score, feedback) := acc in
      sequential_check seqs' pw
        (if has_window sq pw
         then (score - 10, feedback ++ ["Avoid sequential characters"])
         else (score, feedback))
  end.

(** [check_password_strength] *)
Definition check_password_strength (password : string)
  : Z * string * list string :=
  let pw := String.list_ascii_of_string password in
  let score := 0 in
  let feedback := [] in
  let '(score, feedback) :=
    if len pw <? 8
    then (score, feedback ++
            ["Password is too short (at least 8 characters recommended)"])
    else if len pw >=? 12 then (score + 25, feedback)
    else if len pw >=? 8 then (score + 15, feedback)
    else (score, feedback) in
  let has_lowercase := existsb islower pw in
  let has_uppercase := existsb isupper pw in
  let has_digits := existsb isdigit pw in
  let has_special := existsb (fun c => negb (isalnum c)) pw in
  let variety_score := 0 in
  let '(variety_score, feedback) :=
    if has_lowercase then (variety_score + 10, feedback)
    else (variety_score, feedback ++ ["Add lowercase letters"]) in
  let '(variety_score, feedback) :=
    if has_uppercase then (variety_score + 10, feedback)
    else (variety_score, feedback ++ ["Add uppercase letters"]) in
  let '(variety_score, feedback) :=
    if has_digits then (variety_score + 10, feedback)
    else (variety_score, feedback ++ ["Add numbers"]) in
  let '(variety_score, feedback) :=
    if has_special then (variety_score + 10, feedback)
    else (variety_score, feedback ++ ["Add special characters"]) in
  let score := score + variety_score in
  let '(score, feedback) :=
    if re_search repeat_pattern pw
    then (score - 10, feedback ++ ["Avoid repeating characters"])
    else (score, feedback) in
  let '(score, feedback) := sequential_check sequences pw (score, feedback) in
  let score := if len pw >? 16 then score + 10 else score in
  let score :=
    if has_lowercase && has_uppercase && has_digits && has_special
    then score + 15 else score in
  let score := Z.max 0 (Z.min 100 score) in
  let strength_text :=
    if score <=? 25 then "Very Weak"
    else if score <=? 50 then "Weak"
    else if score <=? 75 then "Medium"
    else "Strong" in
  (score, strength_text, feedback).


(** ** An instance of the library interface

    A small instance on which the engine can be run: the block transform
    is the exclusive-or with the first 16 bytes of the key, the key
    derivation pads or cuts password and salt to 32 bytes, a string is
    encoded one byte per character, and a vault is written as the binary
    digits of its code. *)

#[global] Instance Entry_countable : Countable Entry.
Proof.
  apply (inj_countable'
           (fun e => (password e, url e, notes e, date_modified e))
           (fun t => let '(p, u, n, d) := t in mkEntry p u n d)).
  by intros [].
Defined.

Fixpoint digits_of_pos (p : positive) : string :=
  match p with
  | xH => ""
  | xO p' => String "0" (digits_of_pos p')
  | xI p' => String "1" (digits_of_pos p')
  end.

Fixpoint pos_of_digits (s : string) : option positive :=
  match s with
  | EmptyString => Some xH
  | String c s' =>
      p ← pos_of_digits s';
      if Ascii.eqb c "0" then Some (xO p)
      else if Ascii.eqb c "1" then Some (xI p)
      else None
  end.

Definition demo_library : Library := {|
  pbkdf2_hmac_sha256 pw s := take 32 (pw ++ s ++ replicate 32 Byte.x00);
  aes_encrypt_block key block := xor_bytes block (take 16 key);
  aes_decrypt_block key block := xor_bytes block (take 16 key);
  utf8_encode s := map byte_of_ascii (String.list_ascii_of_string s);
  utf8_decode b := Ret (String.string_of_list_ascii (map ascii_of_byte b));
  json_dumps v := digits_of_pos (encode v);
  json_loads s :=
    match pos_of_digits s ≫= decode with
    | Some v => Ret v
    | None => Raise JSONDecodeError
    end
|}.

(** A world with no file, no fault to come and a constant entropy source. *)
Definition demo_world : World :=
  {| fs := ∅; faults := []; entropy := fun i => (7 * i + 3)%nat; drawn := 0;
     today := "2024-01-01" |}.

Section Demo.
#[local] Existing Instance demo_library.

(** A new store on ["vault.enc"], the store once created with the master
    password ["correct-horse"], and the store once the entry of the
    specification's example is added. *)
Definition demo_fresh : Mem :=
  {| self := __init__ "vault.enc"; world := demo_world |}.

Definition demo_unlocked : Mem := (initialize "correct-horse" demo_fresh).2.

Definition demo_stored : Mem :=
  (add_password "github" "alice" (Some "P@ssw0rd1") "" "" demo_unlocked).2.

(** A new store on the file that [m] leaves behind. *)
Definition reopened (m : Mem) : Mem :=
  {| self := __init__ (vault_file (self m)); world := world m |}.

(** The store [m] when the next [open] is to meet the fault [f]. *)
Definition with_fault (f : io_fault) (m : Mem) : Mem :=
  {| self := self m; world := set_faults [Some f] (world m) |}.

(** The store when the write of its next save is to fail after 20 bytes. *)
Definition demo_interrupted : Mem :=
  with_fault (TransferFails 20) demo_stored.

(** A new store on a file of three bytes that no save has written. *)
Definition demo_corrupted : Mem :=
  {| self := __init__ "vault.enc";
     world := set_fs {["vault.enc" := [Byte.x00; Byte.x01; Byte.x02]]}
                     demo_world |}.

(** Unlocking the stored container with another password, and unlocking
    the damaged one. *)
Definition demo_wrong_password : outcome pyvalue * Mem :=
  initialize "wrong-password" (reopened demo_stored).

Definition demo_damaged : outcome pyvalue * Mem :=
  initialize "correct-horse" demo_corrupted.
End Demo.

(** ** Definitions used to state the properties *)

(** What [save_vault] does to the world once the vault is encrypted: the
    outcome drawn for the [open] decides how much reaches the file. *)
Definition written (pm : PasswordManager) (w : World)
    (encrypted_data : bytes) : outcome bool * World :=
  let w1 := set_faults (tail (faults w)) w in
  match mjoin (head (faults w)) with
  | Some OpenFails => (Ret false, w1)
  | fault =>
      match bytes_add (salt pm) (iv pm) with
      | Raise _ => (Ret false, set_fs (<[vault_file pm := []]> (fs w1)) w1)
      | Ret salt_iv =>
          let data := salt_iv ++ encrypted_data in
          match fault with
          | Some (TransferFails n) =>
              (Ret false, set_fs (<[vault_file pm := take n data]>
                                    (<[vault_file pm := []]> (fs w1))) w1)
          | _ =>
              (Ret true, set_fs (<[vault_file pm := data]>
                                   (<[vault_file pm := []]> (fs w1))) w1)
          end
      end
  end.

(** The object with its salt and key replaced. *)
Definition with_keys (pm : PasswordManager) (s k : option bytes)
  : PasswordManager :=
  {| vault_file := vault_file pm; master_key := k; vault := vault pm;
     salt := s; iv := iv pm; initialized := initialized pm |}.

(** The object with its vault replaced. *)
Definition with_vault (pm : PasswordManager) (v : Vault) : PasswordManager :=
  {| vault_file := vault_file pm; master_key := master_key pm; vault := v;
     salt := salt pm; iv := iv pm; initialized := initialized pm |}.

(** The bytes [os.urandom(n)] returns in world [w]. *)
Definition urandom_bytes (w : World) (n : nat) : bytes :=
  map (fun i => byte_of_draw (entropy w i)) (seq (drawn w) n).

(** The vault after [add_password] has stored [entry]. *)
Definition vault_with_entry (v : Vault) (service username : string)
    (entry : Entry) : Vault :=
  <[service := <[username := entry]> (default ∅ (v !! service))]> v.

(** The vault after [remove_password] has removed its target. *)
Definition vault_without (v : Vault) (service : string)
    (username : option string) : Vault :=
  match username, v !! service with
  | Some u, Some usernames =>
      if bool_decide (delete u usernames = ∅) then delete service v
      else <[service := delete u usernames]> v
  | _, _ => delete service v
  end.

(** The target of [remove_password] is in the vault. *)
Definition has_target (v : Vault) (service : string)
    (username : option string) : bool :=
  match v !! service, username with
  | Some usernames, Some u => bool_decide (is_Some (usernames !! u))
  | Some _, None => true
  | None, _ => false
  end.

(** The object with every attribute but the path given anew. *)
Definition session (pm : PasswordManager) (k : option bytes) (v : Vault)
    (s i : option bytes) (b : bool) : PasswordManager :=
  {| vault_file := vault_file pm; master_key := k; vault := v;
     salt := s; iv := i; initialized := b |}.

(** The world once an [open] has drawn its outcome. *)
Definition after_open (w : World) : World := set_faults (tail (faults w)) w.

(** The entry stored for [username] under [service], if any. *)
Definition lookup_entry (v : Vault) (service username : string)
  : option Entry :=
  v !! service ≫= fun usernames => usernames !! username.

(** No service of the vault has an empty mapping of usernames. *)
Definition no_empty_service (v : Vault) : Prop :=
  forall service usernames, v !! service = Some usernames -> usernames <> ∅.

(** The next [open] will succeed. *)
Definition next_open_ok (w : World) : Prop := mjoin (head (faults w)) = None.

Section Statements.
Context `{Library}.

(** The session is unlocked and its key is the one derived from
    [master_password] and the current 16-byte salt; the IV has 16 bytes. *)
Definition keyed_by (master_password : string) (pm : PasswordManager)
  : Prop :=
  initialized pm = true /\
  exists s i,
    salt pm = Some s /\ length s = 16%nat /\
    iv pm = Some i /\ length i = 16%nat /\
    master_key pm
    = Some (pbkdf2_hmac_sha256 (utf8_encode master_password) s).

(** The stores that a session opened with a master password reaches:
    [initialize] left it unlocked, then any of the operations; a
    successful rotation changes the password that unlocks it. *)
Inductive unlocked_by : string -> Mem -> Prop :=
  | ub_initialize P m :
      (initialize P m).1 = Ret PyNone ->
      initialized (self (initialize P m).2) = true ->
      unlocked_by P (initialize P m).2
  | ub_add P m service username pw url notes :
      unlocked_by P m ->
      unlocked_by P (add_password service username pw url notes m).2
  | ub_remove P m service username :
      unlocked_by P m ->
      unlocked_by P (remove_password service username m).2
  | ub_save P m :
      unlocked_by P m -> unlocked_by P (save_vault m).2
  | ub_generate P m n u l d s :
      unlocked_by P m -> unlocked_by P (generate_password n u l d s m).2
  | ub_rotate P m current new :
      unlocked_by P m ->
      (change_master_password current new m).1 = Ret true ->
      unlocked_by new (change_master_password current new m).2
  | ub_rotate_failed P m current new :
      unlocked_by P m ->
      (change_master_password current new m).1 <> Ret true ->
      unlocked_by P (change_master_password current new m).2.

(** The truth value [save_vault] returns, and the world it leaves. *)
Definition saved (m : Mem) : bool :=
  match (save_vault m).1 with
  | Ret b => b
  | Raise _ => false
  end.

Definition world_after_save (m : Mem) : World := world (save_vault m).2.

(** The store and the world that [_create_new_vault] leaves. *)
Definition created (P : string) (m : Mem) : Mem :=
  let s := urandom_bytes (world m) 16 in
  let w1 := set_drawn (drawn (world m) + 16) (world m) in
  let i := urandom_bytes w1 16 in
  let w2 := set_drawn (drawn w1 + 16) w1 in
  let pm1 := session (self m)
               (Some (pbkdf2_hmac_sha256 (utf8_encode P) s)) ∅
               (Some s) (Some i) true in
  {| self := pm1; world := world_after_save {| self := pm1; world := w2 |} |}.

(** What [_load_vault] computes from the bytes of a container. *)
Definition decode_container (data : bytes) (master_password : string)
  : outcome Vault :=
  let s := py_slice (py_slice data None (Some 32)) None (Some 16) in
  let i := py_slice (py_slice data None (Some 32)) (Some 16) (Some 32) in
  key <-! _derive_key master_password (Some s);
  decrypted <-! _decrypt (py_slice data (Some 32) None) (Some key) (Some i);
  text <-! utf8_decode decrypted;
  json_loads text.

(** The store that [_load_vault] leaves. *)
Definition loaded (data : bytes) (P : string) (m : Mem) : Mem :=
  let s := py_slice (py_slice data None (Some 32)) None (Some 16) in
  let i := py_slice (py_slice data None (Some 32)) (Some 16) (Some 32) in
  let key := pbkdf2_hmac_sha256 (utf8_encode P) s in
  match decode_container data P with
  | Ret v =>
      {| self := session (self m) (Some key) v (Some s) (Some i) true;
         world := world m |}
  | Raise _ =>
      {| self := session (self m) (Some key) (vault (self m))
                         (Some s) (Some i) false;
         world := world m |}
  end.

(** The operations on an unlocked store. *)
Inductive operation : Type :=
  | OpAdd (service username : string) (pw : option string)
          (url notes : string)
  | OpGet (service username : string)
  | OpRemove (service : string) (username : option string)
  | OpListServices
  | OpListUsernames (service : string)
  | OpGenerate (n : Z) (upper lower digit special : bool)
  | OpSave
  | OpRotate (current new : string).

Definition run (o : operation) (m : Mem) : Mem :=
  match o with
  | OpAdd s u p url n => (add_password s u p url n m).2
  | OpGet s u => (get_password s u m).2
  | OpRemove s u => (remove_password s u m).2
  | OpListServices => (get_all_services m).2
  | OpListUsernames s => (get_usernames s m).2
  | OpGenerate n u l d s => (generate_password n u l d s m).2
  | OpSave => (save_vault m).2
  | OpRotate c n => (change_master_password c n m).2
  end.
End Statements.

(** ** The event handlers of [PasswordManagerGUI] that drive the engine
    ([password_manager_gui.py])

    A handler is modelled by what it does to [self.password_manager] and
    to the world, and by the message box it shows, which is its result
    here ([None]: no box); the widgets are not modelled.  Strings are
    ASCII, as for the scorer. *)

Inductive messagebox : Set :=
  | showerror (title message : string)
  | showinfo (title message : string).

(** [str.isspace] on one ASCII character: tab to carriage return, the
    four separators and the space. *)
Definition isspace (c : ascii) : bool :=
  let n := nat_of_ascii c in
  ((9 <=? n) && (n <=? 13) || (28 <=? n) && (n <=? 32))%nat.

Fixpoint lstrip (s : list ascii) : list ascii :=
  match s with
  | c :: s' => if isspace c then lstrip s' else s
  | [] => []
  end.

(** [str.strip()] *)
Definition strip (s : string) : string :=
  String.string_of_list_ascii
    (rev (lstrip (rev (lstrip (String.list_ascii_of_string s))))).

(** What [update_password_strength] sets: the value of the meter, the
    text of the label, the style of the meter when it is changed, and the
    text of the feedback. *)
Record strength_display : Set := mkDisplay {
  meter_value : Z;
  label_text : string;
  meter_style : option string;
  feedback_text : string
}.

(** [PasswordManagerGUI.update_password_strength] *)
Definition update_password_strength (password : string) : strength_display :=
  if bool_decide (password = "") then
    {| meter_value := 0; label_text := "Password Strength: Not Rated";
       meter_style := None; feedback_text := "" |}
  else
    let '(score, strength_text, feedback) := check_password_strength password in
    {| meter_value := score;
       label_text := "Password Strength: " +:+ strength_text;
       meter_style :=
         Some (if score <=? 25 then "Red.Horizontal.TProgressbar"
               else if score <=? 50 then "Orange.Horizontal.TProgressbar"
               else if score <=? 75 then "Yellow.Horizontal.TProgressbar"
               else "Green.Horizontal.TProgressbar");
       feedback_text :=
         match feedback with
         | [] => "Good password!"
         | _ => String.concat ", " feedback
         end |}.

Module Gui.
Section Handlers.
Context `{Library}.

(** [PasswordManagerGUI.try_unlock_vault] *)
Definition try_unlock_vault (master_password : string)
  : M (option messagebox) :=
  if bool_decide (master_password = "") then
    ret (Some (showerror "Error" "Please enter your master password"))
  else
    initialize master_password;;
    pm <- get_self;
    if initialized pm then ret None
    else ret (Some (showerror "Authentication Failed"
                              "Incorrect master password")).

(** [PasswordManagerGUI.create_new_vault_with_password] *)
Definition create_new_vault_with_password (password confirm_password : string)
  : M (option messagebox) :=
  if bool_decide (password = "") then
    ret (Some (showerror "Error" "Please enter a master password"))
  else if bool_decide (password <> confirm_password) then
    ret (Some (showerror "Error" "Passwords do not match"))
  else
    initialize password;;
    pm <- get_self;
    if initialized pm
    then ret (Some (showinfo "Success" "New vault created successfully"))
    else ret (Some (showerror "Error" "Failed to create new vault")).

(** [PasswordManagerGUI.save_new_password] *)
Definition save_new_password (service username password url notes : string)
  : M (option messagebox) :=
  if bool_decide (service = "") || bool_decide (username = "")
     || bool_decide (password = "") then
    ret (Some (showerror "Error"
                         "Service, username, and password are required"))
  else
    let notes := strip notes in
    success <- add_password service username (Some password) url notes;
    if success then ret (Some (showinfo "Success" "Password saved successfully"))
    else ret (Some (showerror "Error" "Failed to save password")).


(** [PasswordManagerGUI.delete_password]; [confirm] is the answer to the
    question the handler asks first. *)
Definition delete_password (service username : string) (confirm : bool)
  : M (option messagebox) :=
  if negb confirm then ret None
  else
    success <- remove_password service (Some username);
    if success then ret None
    else ret (Some (showerror "Error" "Failed to delete password")).

(** [PasswordManagerGUI.change_master_password], the definition in force *)
Definition change_master_password (current_password new_password
                                   confirm_password : string)
  : M (option messagebox) :=
  if bool_decide (current_password = "") || bool_decide (new_password = "")
     || bool_decide (confirm_password = "") then
    ret (Some (showerror "Error" "All fields are required"))
  else if bool_decide (new_password <> confirm_password) then
    ret (Some (showerror "Error" "New passwords do not match"))
  else
    success <- change_master_password current_password new_password;
    if success
    then ret (Some (showinfo "Success" "Master password changed successfully"))
    else ret (Some (showerror "Error" "Incorrect current password")).

(** [PasswordManagerGUI.lock_vault]: a new [PasswordManager()] on the
    default path takes the place of the old one. *)
Definition lock_vault : M unit :=
  put_self (__init__ "password_vault.enc").
End Handlers.
End Gui.

(** ** The scorer, in terms of what it finds in the password *)

Definition points (b : bool) (n : Z) : Z := if b then n else 0.

Definition notice (b : bool) (message : string) : list string :=
  if b then [message] else [].

(** The score before it is clamped, from the length and the findings:
    the four classes, the repeat pattern and the two sequences. *)
Definition raw_score (L : Z) (lo up di sp rep s1 s2 : bool) : Z :=
  (if L <? 8 then 0 else if L >=? 12 then 25 else 15)
  + points lo 10 + points up 10 + points di 10 + points sp 10
  - points rep 10 - points s1 10 - points s2 10
  + points (L >? 16) 10 + points (lo && up && di && sp) 15.

Definition strength_text (score : Z) : string :=
  if score <=? 25 then "Very Weak"
  else if score <=? 50 then "Weak"
  else if score <=? 75 then "Medium"
  else "Strong".

Definition feedback_of (L : Z) (lo up di sp rep s1 s2 : bool) : list string :=
  notice (L <? 8) "Password is too short (at least 8 characters recommended)"
  ++ notice (negb lo) "Add lowercase letters"
  ++ notice (negb up) "Add uppercase letters"
  ++ notice (negb di) "Add numbers"
  ++ notice (negb sp) "Add special characters"
  ++ notice rep "Avoid repeating characters"
  ++ notice s1 "Avoid sequential characters"
  ++ notice s2 "Avoid sequential characters".

(** The findings of the scorer on a password. *)
Definition alphabet_run (pw : list ascii) : bool :=
  has_window (String.list_ascii_of_string "abcdefghijklmnopqrstuvwxyz") pw.
Definition digit_run (pw : list ascii) : bool :=
  has_window (String.list_ascii_of_string "0123456789") pw.


(** The style of the meter that belongs to a category of the scorer. *)
Definition style_of (category : string) : string :=
  if bool_decide (category = "Very Weak") then "Red.Horizontal.TProgressbar"
  else if bool_decide (category = "Weak") then "Orange.Horizontal.TProgressbar"
  else if bool_decide (category = "Medium")
       then "Yellow.Horizontal.TProgressbar"
  else "Green.Horizontal.TProgressbar".

(** The store created with the master password ["correct-horse"] on the
    path that the interface uses. *)
Definition demo_default : Mem :=
  (@initialize demo_library "correct-horse"
     {| self := __init__ "password_vault.enc"; world := demo_world |}).2.

(** The store created with ["correct-horse"] in a world where the [open]
    after the one of the creation is to fail. *)
Definition demo_failing : Mem :=
  (@initialize demo_library "correct-horse"
     {| self := __init__ "vault.enc";
        world := set_faults [None; Some OpenFails] demo_world |}).2.

(** * Properties *)

(** ** Outcomes, bytes and slices *)

(** Case analysis on the integer comparisons of the goal. *)
Ltac zcases :=
  repeat match goal with
         | |- context [?a <=? ?b] => destruct (Z.leb_spec a b)
         | |- context [?a <? ?b] => destruct (Z.ltb_spec a b)
         | |- context [?a >=? ?b] => rewrite (Z.geb_leb a b)
         | |- context [?a >? ?b] => rewrite (Z.gtb_ltb a b)
         | |- context [?a =? ?b] => destruct (Z.eqb_spec a b)
         end;
  simpl; try lia; try done.

Lemma len_app {A} (l1 l2 : list A) : len (l1 ++ l2) = len l1 + len l2.
Proof. unfold len. rewrite length_app. lia. Qed.

Lemma len_replicate {A} (k : nat) (x : A) : len (replicate k x) = Z.of_nat k.
Proof. unfold len. by rewrite length_replicate. Qed.

Lemma len_nonneg {A} (l : list A) : 0 <= len l.
Proof. unfold len. lia. Qed.

Lemma byte_of_int_to_nat n b : byte_of_int n = Ret b -> int_of_byte b = n.
Proof.
  unfold byte_of_int, int_of_byte. zcases; try discriminate.
  destruct (Byte.of_nat (Z.to_nat n)) as [b'|] eqn:Hb; [|discriminate].
  intros [= <-]. apply Byte.to_of_nat in Hb. lia.
Qed.

Lemma byte_of_int_in_range n :
  0 <= n < 256 -> exists b, byte_of_int n = Ret b.
Proof.
  intros Hn. unfold byte_of_int. zcases.
  destruct (Byte.of_nat (Z.to_nat n)) as [b|] eqn:Hb; [eauto|].
  apply Byte.of_nat_None_iff in Hb. lia.
Qed.

Lemma bytes_of_ints_replicate k n b :
  byte_of_int n = Ret b ->
  bytes_of_ints (replicate k n) = Ret (replicate k b).
Proof.
  intros Hb. induction k as [|k IH]; simpl; [done|].
  by rewrite Hb, IH.
Qed.

Lemma py_index_last {A} (l : list A) (x : A) :
  py_index (l ++ [x]) (-1) = Ret x.
Proof.
  unfold py_index. simpl. rewrite len_app. unfold len. simpl. zcases.
  by rewrite list_lookup_middle by lia.
Qed.

Lemma py_index_nil {A} (i : Z) : py_index (@nil A) i = Raise IndexError.
Proof. unfold py_index, len. simpl. zcases. Qed.

(** [l[:-n]] with [0 < n] drops the last [n] elements (all of them when
    [len l <= n]); with [n = 0] the bound is [0] and nothing is left. *)
Lemma py_slice_drop_last {A} (l : list A) (n : Z) :
  0 < n ->
  py_slice l None (Some (- n)) = take (length l - Z.to_nat n) l.
Proof.
  intros Hn. unfold py_slice, py_clamp, len. simpl. zcases.
  rewrite drop_0. f_equal. lia.
Qed.

Lemma py_slice_minus_zero {A} (l : list A) : py_slice l None (Some (- 0)) = [].
Proof.
  unfold py_slice, py_clamp, len. simpl.
  rewrite drop_0. replace (Z.to_nat _) with 0%nat; [done|]. lia.
Qed.

Lemma py_slice_prefix {A} (l : list A) (n : nat) :
  py_slice l None (Some (Z.of_nat n)) = take n l.
Proof.
  unfold py_slice, py_clamp, len. simpl. zcases. rewrite drop_0.
  destruct (decide (n <= length l)%nat).
  - f_equal. lia.
  - replace (Z.to_nat _) with (length l) by lia.
    by rewrite !take_ge by lia.
Qed.

Lemma py_slice_suffix {A} (l : list A) (n : nat) :
  py_slice l (Some (Z.of_nat n)) None = drop n l.
Proof.
  unfold py_slice, py_clamp, len. simpl. zcases.
  destruct (decide (n <= length l)%nat).
  - replace (Z.to_nat (Z.min _ _)) with n by lia.
    apply take_ge. rewrite length_drop. lia.
  - replace (Z.to_nat (Z.min _ _)) with (length l) by lia.
    rewrite !drop_ge by lia. by rewrite take_nil.
Qed.

Lemma py_slice_range {A} (l : list A) (a b : nat) :
  (a <= b)%nat ->
  py_slice l (Some (Z.of_nat a)) (Some (Z.of_nat b)) = take (b - a) (drop a l).
Proof.
  intros Hab. unfold py_slice, py_clamp, len. simpl. zcases.
  destruct (decide (a <= length l)%nat).
  - replace (Z.to_nat (Z.min (Z.of_nat a) _)) with a by lia.
    destruct (decide (b <= length l)%nat).
    + f_equal. lia.
    + replace (Z.to_nat _) with (length l - a)%nat by lia.
      rewrite !take_ge; [done | rewrite length_drop; lia ..].
  - replace (Z.to_nat (Z.min (Z.of_nat a) _)) with (length l) by lia.
    rewrite !drop_ge by lia. by rewrite !take_nil.
Qed.

(** ** PKCS#7 padding *)

(** [_pad] never raises: it appends [n] bytes of value [n], where [n] is
    [16 - len(data) % 16]. *)
Lemma pad_spec (data : bytes) :
  exists (n : Z) (b : byte),
    n = 16 - len data mod 16 /\ 1 <= n <= 16 /\ int_of_byte b = n /\
    _pad data = Ret (data ++ replicate (Z.to_nat n) b).
Proof.
  set (n := 16 - len data mod 16).
  assert (Hn : 1 <= n <= 16).
  { pose proof (Z.mod_pos_bound (len data) 16 ltac:(lia)). subst n. lia. }
  destruct (byte_of_int_in_range n) as [b Hb]; [clearbody n; lia|].
  exists n, b. split_and!; [done | lia | lia | by apply byte_of_int_to_nat |].
  unfold _pad. fold n. unfold list_times.
  by rewrite (bytes_of_ints_replicate _ _ _ Hb).
Qed.

Lemma pad_length (data padded : bytes) :
  _pad data = Ret padded ->
  1 <= len padded - len data <= 16 /\ len padded mod 16 = 0.
Proof.
  destruct (pad_spec data) as (n & b & Hn & Hr & _ & ->). intros [= <-].
  rewrite len_app, len_replicate.
  split; [lia|].
  replace (len data + Z.of_nat (Z.to_nat n))
    with (len data - len data mod 16 + 1 * 16) by lia.
  rewrite Z.mod_add by lia.
  rewrite Zminus_mod_idemp_r. by rewrite Z.sub_diag.
Qed.

Lemma unpad_padding (data : bytes) (n : Z) (b : byte) :
  1 <= n -> int_of_byte b = n ->
  _unpad (data ++ replicate (Z.to_nat n) b) = Ret data.
Proof.
  intros Hn Hb. unfold _unpad.
  destruct (Z.to_nat n) as [|k] eqn:Hk; [lia|].
  rewrite replicate_S_end, app_assoc, py_index_last. simpl.
  rewrite Hb, py_slice_drop_last by lia.
  rewrite <- app_assoc, <- replicate_S_end.
  rewrite length_app, length_replicate, Hk.
  replace (length data + S k - S k)%nat with (length data) by lia.
  by rewrite take_app_length.
Qed.

Lemma unpad_nil : _unpad [] = Raise IndexError.
Proof. unfold _unpad. by rewrite py_index_nil. Qed.

Lemma unpad_last_zero (data : bytes) :
  last data = Some Byte.x00 -> _unpad data = Ret [].
Proof.
  intros [l ->]%last_Some. unfold _unpad. rewrite py_index_last. simpl.
  by rewrite py_slice_minus_zero.
Qed.

Lemma unpad_pad (data padded : bytes) :
  _pad data = Ret padded -> _unpad padded = Ret data.
Proof.
  destruct (pad_spec data) as (n & b & _ & Hr & Hb & ->). intros [= <-].
  apply unpad_padding; [lia | done].
Qed.

(** ** The block chain *)

Lemma xor_byte_cancel (a b : byte) : xor_byte (xor_byte a b) b = a.
Proof.
  unfold xor_byte.
  destruct (Byte.to_bits a) as (a0&a1&a2&a3&a4&a5&a6&a7) eqn:Ha.
  destruct (Byte.to_bits b) as (b0&b1&b2&b3&b4&b5&b6&b7) eqn:Hb.
  rewrite Byte.to_bits_of_bits.
  rewrite <- (Byte.of_bits_to_bits a), Ha.
  by rewrite !xorb_assoc, !xorb_nilpotent, !xorb_false_r.
Qed.

Lemma xor_bytes_length (x y : bytes) :
  length x = length y -> length (xor_bytes x y) = length x.
Proof.
  revert y. induction x as [|a x IH]; intros [|b y] Hl; simpl in *; try done.
  f_equal. apply IH. lia.
Qed.

Lemma xor_bytes_cancel (x y : bytes) :
  length x = length y -> xor_bytes (xor_bytes x y) y = x.
Proof.
  revert y. induction x as [|a x IH]; intros [|b y] Hl; simpl in *; try done.
  rewrite xor_byte_cancel. f_equal. apply IH. lia.
Qed.

Lemma Cipher_valid (key iv : bytes) :
  length key = 32%nat -> length iv = 16%nat ->
  Cipher (Some key) (Some iv) = Ret (key, iv).
Proof.
  intros Hk Hi. unfold Cipher, len. rewrite Hk, Hi.
  rewrite !bool_decide_eq_true_2; [done | lia | lia].
Qed.

Section Codec.
Context `{Library}.

(** What the proofs use of AES-256: on a 32-byte key the block transform
    maps 16-byte blocks to 16-byte blocks and decryption inverts it. *)
Hypothesis aes_block_length : forall key block : bytes,
  length key = 32%nat -> length block = 16%nat ->
  length (aes_encrypt_block key block) = 16%nat.
Hypothesis aes_decrypt_encrypt : forall key block : bytes,
  length key = 32%nat -> length block = 16%nat ->
  aes_decrypt_block key (aes_encrypt_block key block) = block.

Lemma cbc_encrypt_length n key prev data :
  length key = 32%nat -> length prev = 16%nat ->
  length data = (16 * n)%nat ->
  length (cbc_encrypt_blocks n key prev data) = (16 * n)%nat.
Proof.
  intros Hk. revert prev data.
  induction n as [|n IH]; intros prev data Hp Hd; simpl; [done|].
  assert (Hx : length (xor_bytes (take 16 data) prev) = 16%nat).
  { rewrite xor_bytes_length; rewrite length_take; lia. }
  rewrite length_app, IH, aes_block_length; try done; try lia.
  - by apply aes_block_length.
  - rewrite length_drop. lia.
Qed.

Lemma cbc_decrypt_encrypt n key prev data :
  length key = 32%nat -> length prev = 16%nat ->
  length data = (16 * n)%nat ->
  cbc_decrypt_blocks n key prev (cbc_encrypt_blocks n key prev data) = data.
Proof.
  intros Hk. revert prev data.
  induction n as [|n IH]; intros prev data Hp Hd; simpl.
  { destruct data; [done | simpl in Hd; lia]. }
  assert (Ht : length (take 16 data) = 16%nat) by (rewrite length_take; lia).
  assert (Hx : length (xor_bytes (take 16 data) prev) = 16%nat).
  { rewrite xor_bytes_length; lia. }
  pose proof (aes_block_length key _ Hk Hx) as Hc.
  rewrite take_app_length', drop_app_length' by done.
  rewrite aes_decrypt_encrypt, xor_bytes_cancel by (done || lia).
  rewrite IH; [apply take_drop | done | rewrite length_drop; lia].
Qed.

Lemma encrypt_spec (data : bytes) (key iv : bytes) :
  length key = 32%nat -> length iv = 16%nat ->
  exists padded,
    _pad data = Ret padded /\
    _encrypt data (Some key) (Some iv)
    = Ret (cbc_encrypt_blocks (length padded / 16)%nat key iv padded) /\
    length padded = (16 * (length padded / 16))%nat /\
    (0 < length padded / 16)%nat.
Proof.
  intros Hk Hi.
  destruct (pad_spec data) as (n & b & Hn & Hr & Hb & Hpad).
  eexists. split; [exact Hpad|].
  destruct (pad_length _ _ Hpad) as [Hlen Hmod].
  set (padded := data ++ replicate (Z.to_nat n) b) in *.
  assert (Hdiv : length padded = (16 * (length padded / 16))%nat).
  { unfold len in Hmod.
    assert (length padded mod 16 = 0)%nat.
    { apply Nat2Z.inj. by rewrite Nat2Z.inj_mod. }
    pose proof (Nat.div_mod_eq (length padded) 16). lia. }
  split_and!; [|done|].
  - unfold _encrypt. rewrite Cipher_valid, Hpad by done.
    cbn [obind encryptor_run]. fold padded. by rewrite Hmod.
  - pose proof (len_nonneg data). unfold len in *. lia.
Qed.

Lemma decrypt_encrypt (data : bytes) (key iv : bytes) :
  length key = 32%nat -> length iv = 16%nat ->
  exists c,
    _encrypt data (Some key) (Some iv) = Ret c /\
    _decrypt c (Some key) (Some iv) = Ret data /\
    0 < len c /\ len c mod 16 = 0.
Proof.
  intros Hk Hi.
  destruct (encrypt_spec data key iv Hk Hi) as (padded & Hp & He & Hd & Hn).
  eexists. split; [exact He|].
  pose proof (cbc_encrypt_length _ key iv padded Hk Hi Hd) as Hl.
  assert (Hm : len (cbc_encrypt_blocks (length padded / 16) key iv padded)
               mod 16 = 0).
  { unfold len. rewrite Hl, Nat2Z.inj_mul, Z.mul_comm. apply Z.mod_mul. lia. }
  split_and!; [| unfold len; lia | done].
  unfold _decrypt. rewrite Cipher_valid by done.
  cbn [obind decryptor_run]. rewrite Hm. cbn [Z.eqb obind]. rewrite Hl.
  replace (16 * (length padded / 16) / 16)%nat with (length padded / 16)%nat.
  2:{ rewrite Nat.mul_comm, Nat.div_mul; lia. }
  rewrite cbc_decrypt_encrypt by done.
  by apply unpad_pad.
Qed.

(** C3 (cipher codec round trip): with a 32-byte key and a 16-byte IV,
    every plaintext of any length is encrypted without error, decrypting
    the result gives the plaintext back, and the PKCS#7 padding adds
    between 1 and 16 bytes and makes the length a multiple of 16. *)
Theorem codec_round_trip (key iv P : bytes) :
  length key = 32%nat -> length iv = 16%nat ->
  (exists padded,
      _pad P = Ret padded /\
      1 <= len padded - len P <= 16 /\ len padded mod 16 = 0) /\
  (exists c,
      _encrypt P (Some key) (Some iv) = Ret c /\
      _decrypt c (Some key) (Some iv) = Ret P).
Proof.
  intros Hk Hi. split.
  - destruct (pad_spec P) as (n & b & _ & _ & _ & Hpad).
    eexists. split; [exact Hpad|]. by apply pad_length.
  - destruct (decrypt_encrypt P key iv Hk Hi) as (c & He & Hd & _).
    eauto.
Qed.

Lemma decrypt_one_block (key iv block : bytes) :
  length key = 32%nat -> length iv = 16%nat -> length block = 16%nat ->
  _decrypt (aes_encrypt_block key (xor_bytes block iv)) (Some key) (Some iv)
  = _unpad block.
Proof.
  intros Hk Hi Hb.
  assert (Hx : length (xor_bytes block iv) = 16%nat).
  { rewrite xor_bytes_length; lia. }
  pose proof (aes_block_length key _ Hk Hx) as Hc.
  unfold _decrypt. rewrite Cipher_valid by done.
  cbn [obind decryptor_run]. unfold len. rewrite Hc.
  change (Z.of_nat 16 mod 16 =? 0) with true.
  change (16 / 16)%nat with 1%nat. cbn [cbc_decrypt_blocks obind].
  rewrite take_ge by lia.
  rewrite aes_decrypt_encrypt, xor_bytes_cancel by (done || lia).
  by rewrite app_nil_r.
Qed.

(** C10 (the padding strip is not total): [_unpad] raises on the empty
    byte string; on every byte string that ends in a zero byte it returns
    the empty byte string; hence [_decrypt] raises on the empty
    ciphertext, and on the one-block ciphertext of any 16-byte block that
    ends in a zero byte it returns the empty byte string, not that
    block and not an error. *)
Theorem unpad_not_total :
  _unpad [] = Raise IndexError /\
  (forall data : bytes, last data = Some Byte.x00 -> _unpad data = Ret []) /\
  (forall key iv : bytes,
      length key = 32%nat -> length iv = 16%nat ->
      _decrypt [] (Some key) (Some iv) = Raise IndexError) /\
  (forall key iv block : bytes,
      length key = 32%nat -> length iv = 16%nat ->
      length block = 16%nat -> last block = Some Byte.x00 ->
      _decrypt (aes_encrypt_block key (xor_bytes block iv))
               (Some key) (Some iv) = Ret []).
Proof.
  split_and!.
  - apply unpad_nil.
  - apply unpad_last_zero.
  - intros key iv Hk Hi. unfold _decrypt. by rewrite Cipher_valid.
  - intros key iv block Hk Hi Hb Hz.
    rewrite decrypt_one_block by done. by apply unpad_last_zero.
Qed.
End Codec.


(** ** The methods *)

(** Running the primitives of a method, one step at a time. *)
Lemma run_bind_ret {A B} (a : A) (k : A -> M B) (m : Mem) :
  bind (ret a) k m = k a m.
Proof. done. Qed.

Lemma run_bind_raise {A B} (e : exn) (k : A -> M B) (m : Mem) :
  bind (raise e) k m = (Raise e, m).
Proof. done. Qed.

Lemma run_bind_bind {A B C} (x : M A) (f : A -> M B) (g : B -> M C) (m : Mem) :
  bind (bind x f) g m = bind x (fun a => bind (f a) g) m.
Proof. unfold bind. by destruct (x m) as [[a|e] m']. Qed.

Lemma run_bind_lift {A B} (o : outcome A) (k : A -> M B) (m : Mem) :
  bind (lift o) k m
  = match o with
    | Ret a => k a m
    | Raise e => (Raise e, m)
    end.
Proof. by destruct o. Qed.

Lemma run_bind_get_self {B} (k : PasswordManager -> M B) (m : Mem) :
  bind get_self k m = k (self m) m.
Proof. done. Qed.

Lemma run_bind_get_world {B} (k : World -> M B) (m : Mem) :
  bind get_world k m = k (world m) m.
Proof. done. Qed.

Lemma run_bind_put_self {B} (pm : PasswordManager) (k : unit -> M B) (m : Mem) :
  bind (put_self pm) k m = k tt {| self := pm; world := world m |}.
Proof. done. Qed.

Lemma run_bind_put_world {B} (w : World) (k : unit -> M B) (m : Mem) :
  bind (put_world w) k m = k tt {| self := self m; world := w |}.
Proof. done. Qed.

Lemma run_bind_set_salt {B} (v : option bytes) (k : unit -> M B) (m : Mem) :
  bind (set_salt v) k m
  = k tt {| self := with_keys (self m) v (master_key (self m));
            world := world m |}.
Proof. done. Qed.

Lemma run_bind_set_master_key {B} (v : option bytes) (k : unit -> M B)
    (m : Mem) :
  bind (set_master_key v) k m
  = k tt {| self := with_keys (self m) (salt (self m)) v; world := world m |}.
Proof. done. Qed.

Lemma run_bind_set_vault {B} (v : Vault) (k : unit -> M B) (m : Mem) :
  bind (set_vault v) k m
  = k tt {| self := with_vault (self m) v; world := world m |}.
Proof. done. Qed.

Lemma run_bind_set_iv {B} (v : option bytes) (k : unit -> M B) (m : Mem) :
  bind (set_iv v) k m
  = k tt {| self := {| vault_file := vault_file (self m);
                       master_key := master_key (self m);
                       vault := vault (self m); salt := salt (self m);
                       iv := v; initialized := initialized (self m) |};
            world := world m |}.
Proof. done. Qed.

Lemma run_bind_set_initialized {B} (v : bool) (k : unit -> M B) (m : Mem) :
  bind (set_initialized v) k m
  = k tt {| self := {| vault_file := vault_file (self m);
                       master_key := master_key (self m);
                       vault := vault (self m); salt := salt (self m);
                       iv := iv (self m); initialized := v |};
            world := world m |}.
Proof. done. Qed.

Create Rewrite HintDb run.
#[global] Hint Rewrite @run_bind_ret @run_bind_raise @run_bind_bind
  @run_bind_lift @run_bind_get_self @run_bind_get_world @run_bind_put_self
  @run_bind_put_world @run_bind_set_salt @run_bind_set_master_key
  @run_bind_set_vault @run_bind_set_iv @run_bind_set_initialized : run.

Ltac run_step :=
  autorewrite with run;
  cbn [self world fst snd vault_file master_key vault salt iv initialized
       with_keys with_vault session negb].

Section MethodFacts.
Context `{Library}.

Lemma save_vault_unfold (m : Mem) :
  save_vault m =
  let pm := self m in
  if negb (initialized pm) then (Ret false, m)
  else
    match _encrypt (utf8_encode (json_dumps (vault pm)))
                   (master_key pm) (iv pm) with
    | Raise _ => (Ret false, m)
    | Ret c =>
        let '(r, w) := written pm (world m) c in
        (r, {| self := pm; world := w |})
    end.
Proof.
  destruct m as [pm w]. unfold save_vault, written, bind, get_self. simpl.
  destruct (initialized pm); simpl; [|done].
  unfold try_except, bind, lift.
  destruct (_encrypt _ _ _) as [c|e]; simpl; [|done].
  unfold write_file, next_fault, bind, get_world, put_world, ret, raise, lift.
  simpl.
  destruct (mjoin (head (faults w))) as [[|n]|]; simpl; try done;
    destruct (bytes_add (salt pm) (iv pm)); simpl; done.
Qed.

Lemma save_vault_self (m : Mem) : self (save_vault m).2 = self m.
Proof.
  rewrite save_vault_unfold. simpl.
  destruct (negb _); [done|].
  destruct (_encrypt _ _ _); [|done].
  by destruct (written _ _ _).
Qed.

Lemma save_vault_returns (m : Mem) : exists b, (save_vault m).1 = Ret b.
Proof.
  rewrite save_vault_unfold. simpl.
  destruct (negb _); [by eexists|].
  destruct (_encrypt _ _ _); [|by eexists].
  unfold written.
  destruct (mjoin _) as [[|n]|]; simpl; try (by eexists);
    destruct (bytes_add _ _); simpl; by eexists.
Qed.

(** A successful save leaves [salt + iv + ciphertext] in the file. *)
Lemma save_vault_true (m : Mem) :
  (save_vault m).1 = Ret true ->
  initialized (self m) = true /\
  exists s i c,
    salt (self m) = Some s /\ iv (self m) = Some i /\
    _encrypt (utf8_encode (json_dumps (vault (self m))))
             (master_key (self m)) (Some i) = Ret c /\
    fs (world (save_vault m).2) !! vault_file (self m) = Some (s ++ i ++ c) /\
    faults (world (save_vault m).2) = tail (faults (world m)).
Proof.
  rewrite save_vault_unfold. simpl.
  destruct (initialized _); simpl; [|done].
  destruct (_encrypt _ _ _) as [c|] eqn:He; [|done].
  unfold written.
  destruct (salt (self m)) as [s|], (iv (self m)) as [i|];
    destruct (mjoin _) as [[|n]|]; simpl; try done.
  intros _. split; [done|]. exists s, i, c. split_and!; try done.
  by rewrite lookup_insert_eq, <- app_assoc.
Qed.

(** A fault at the [open] or during the write makes the save fail. *)
Lemma save_vault_fault (m : Mem) (f : io_fault) :
  mjoin (head (faults (world m))) = Some f -> (save_vault m).1 = Ret false.
Proof.
  intros Hf. rewrite save_vault_unfold. simpl.
  destruct (negb _); [done|].
  destruct (_encrypt _ _ _); [|done].
  unfold written. rewrite Hf.
  destruct f; simpl; [done|]. by destruct (bytes_add _ _).
Qed.

Lemma draws_spec (n : nat) (m : Mem) :
  draws n m
  = (Ret (map (entropy (world m)) (seq (drawn (world m)) n)),
     {| self := self m;
        world := set_drawn (drawn (world m) + n) (world m) |}).
Proof.
  revert m. induction n as [|n IH]; intros [pm w]; simpl.
  - unfold ret, set_drawn. simpl. rewrite Nat.add_0_r. by destruct w.
  - unfold bind at 1. unfold draw at 1.
    unfold bind, get_world, put_world, ret. simpl.
    rewrite IH. simpl. unfold set_drawn. simpl.
    by replace (drawn w + S n)%nat with (S (drawn w + n)) by lia.
Qed.

Lemma os_urandom_spec (n : nat) (m : Mem) :
  os_urandom n m
  = (Ret (urandom_bytes (world m) n),
     {| self := self m;
        world := set_drawn (drawn (world m) + n) (world m) |}).
Proof.
  unfold os_urandom, bind. rewrite draws_spec. unfold ret, urandom_bytes.
  by rewrite map_map.
Qed.

Lemma urandom_bytes_length (w : World) (n : nat) :
  length (urandom_bytes w n) = n.
Proof. unfold urandom_bytes. by rewrite length_map, length_seq. Qed.

Lemma save_vault_eq (m : Mem) :
  save_vault m
  = (Ret (saved m), {| self := self m; world := world_after_save m |}).
Proof.
  unfold saved, world_after_save.
  pose proof (save_vault_self m) as Hs.
  destruct (save_vault_returns m) as [b Hb].
  destruct (save_vault m) as [r [pm w]]. simpl in *. by subst.
Qed.

Lemma run_bind_save_vault {B} (k : bool -> M B) (m : Mem) :
  bind save_vault k m
  = k (saved m) {| self := self m; world := world_after_save m |}.
Proof. unfold bind. by rewrite save_vault_eq. Qed.

Lemma run_bind_os_urandom {B} (n : nat) (k : bytes -> M B) (m : Mem) :
  bind (os_urandom n) k m
  = k (urandom_bytes (world m) n)
      {| self := self m;
         world := set_drawn (drawn (world m) + n) (world m) |}.
Proof. unfold bind. by rewrite os_urandom_spec. Qed.

(** [change_master_password], case by case. *)
Lemma change_master_password_unfold (current new : string) (m : Mem) :
  change_master_password current new m =
  let pm := self m in
  if negb (initialized pm) then (Ret false, m)
  else
    match salt pm, master_key pm with
    | Some s, Some k =>
        if bool_decide (pbkdf2_hmac_sha256 (utf8_encode current) s = k)
        then
          let new_salt := urandom_bytes (world m) 16 in
          let new_key := pbkdf2_hmac_sha256 (utf8_encode new) new_salt in
          let m1 :=
            {| self := with_keys pm (Some new_salt) (Some new_key);
               world := set_drawn (drawn (world m) + 16) (world m) |} in
          if saved m1
          then (Ret true, {| self := self m1;
                             world := world_after_save m1 |})
          else (Ret false, {| self := pm; world := world_after_save m1 |})
        else (Ret false, m)
    | _, _ => (Ret false, m)
    end.
Proof.
  destruct m as [pm w]. unfold change_master_password. run_step.
  destruct (initialized pm) eqn:Hinit; cbn [negb]; [|done].
  unfold try_except. run_step.
  destruct (salt pm) as [s|] eqn:Hs; cbn [_derive_key]; [|done].
  run_step.
  destruct (master_key pm) as [k|] eqn:Hk; cbn [_secure_compare]; [|done].
  destruct (bool_decide _); run_step; [|done].
  rewrite run_bind_os_urandom. run_step.
  rewrite run_bind_save_vault. run_step.
  destruct (saved _); run_step; [done|].
  unfold ret. rewrite Hs, Hk, <- Hs, <- Hk. by destruct pm.
Qed.

Lemma saved_true (m : Mem) : saved m = true <-> (save_vault m).1 = Ret true.
Proof.
  unfold saved. destruct (save_vault_returns m) as [b ->].
  split; [by intros -> | by intros [= ->]].
Qed.

Lemma change_master_password_true (current new : string) (m : Mem) :
  (change_master_password current new m).1 = Ret true ->
  let new_salt := urandom_bytes (world m) 16 in
  let new_key := pbkdf2_hmac_sha256 (utf8_encode new) new_salt in
  self (change_master_password current new m).2
  = with_keys (self m) (Some new_salt) (Some new_key) /\
  exists i c,
    iv (self m) = Some i /\
    _encrypt (utf8_encode (json_dumps (vault (self m))))
             (Some new_key) (Some i) = Ret c /\
    fs (world (change_master_password current new m).2) !! vault_file (self m)
    = Some (new_salt ++ i ++ c).
Proof.
  cbv zeta. rewrite change_master_password_unfold. cbv zeta.
  destruct (negb _); [done|].
  destruct (salt (self m)); [|done]. destruct (master_key (self m)); [|done].
  case_bool_decide; [|done].
  set (m1 := {| self := _; world := _ |}).
  destruct (saved m1) eqn:Hsaved; cbn [fst snd self world]; [|done].
  intros _. split; [done|].
  apply saved_true, save_vault_true in Hsaved
    as (_ & s' & i & c & Hs' & Hi & He & Hfs & _).
  change (vault_file (self m1)) with (vault_file (self m)) in Hfs.
  cbn [m1 self with_keys salt iv master_key vault] in Hs', Hi, He.
  injection Hs' as <-. by exists i, c.
Qed.

(** C4 (rotation is all or nothing for the session):
    [change_master_password] returns [True] or [False] and never raises;
    whenever it returns [False] the object is exactly as before; when the
    key derived from the current password and the current salt differs
    from the stored key (the comparison of [secrets.compare_digest]) it
    returns [False] and neither the object nor the world has changed; and
    when it returns [True] the object carries the fresh salt and the key
    derived from the new password, everything else as before, and the
    container holds the vault under them. *)
Theorem rotation_atomic (current new : string) (m : Mem) :
  let r := (change_master_password current new m).1 in
  let m' := (change_master_password current new m).2 in
  (r = Ret true \/ r = Ret false) /\
  (r = Ret false -> self m' = self m) /\
  (forall s k,
      initialized (self m) = true ->
      salt (self m) = Some s -> master_key (self m) = Some k ->
      pbkdf2_hmac_sha256 (utf8_encode current) s <> k ->
      r = Ret false /\ m' = m) /\
  (r = Ret true ->
   let new_salt := urandom_bytes (world m) 16 in
   let new_key := pbkdf2_hmac_sha256 (utf8_encode new) new_salt in
   self m' = with_keys (self m) (Some new_salt) (Some new_key) /\
   exists i c,
     iv (self m) = Some i /\
     _encrypt (utf8_encode (json_dumps (vault (self m))))
              (Some new_key) (Some i) = Ret c /\
     fs (world m') !! vault_file (self m) = Some (new_salt ++ i ++ c)).
Proof.
  cbv zeta. split_and!.
  - rewrite change_master_password_unfold. cbv zeta.
    destruct (negb _); [by right|].
    destruct (salt (self m)); [|by right].
    destruct (master_key (self m)); [|by right].
    case_bool_decide; [|by right]. destruct (saved _); [by left | by right].
  - rewrite change_master_password_unfold. cbv zeta.
    destruct (negb _); [done|].
    destruct (salt (self m)); [|done]. destruct (master_key (self m)); [|done].
    case_bool_decide; [|done]. by destruct (saved _).
  - intros s k Hinit Hs Hk Hne.
    rewrite change_master_password_unfold. cbv zeta.
    rewrite Hinit, Hs, Hk. cbn [negb]. by rewrite bool_decide_eq_false_2.
  - apply change_master_password_true.
Qed.

Lemma py_index_in_range {A} (l : list A) (i : nat) :
  (i < length l)%nat ->
  exists x, py_index l (Z.of_nat i) = Ret x /\ l !! i = Some x.
Proof.
  intros Hi. unfold py_index, len. zcases.
  rewrite Nat2Z.id. destruct (lookup_lt_is_Some_2 l i Hi) as [x Hx].
  rewrite Hx. eauto.
Qed.

Lemma secrets_choice_spec {A} (chars : list A) (m : Mem) :
  chars <> [] ->
  exists c,
    c ∈ chars /\
    secrets_choice chars m
    = (Ret c, {| self := self m;
                 world := set_drawn (S (drawn (world m))) (world m) |}).
Proof.
  intros Hne. destruct chars as [|a l]; [done|].
  unfold secrets_choice, draw. run_step.
  set (x := entropy (world m) (drawn (world m))).
  destruct (py_index_in_range (a :: l) (x mod length (a :: l)))
    as (c & -> & Hc).
  { apply Nat.mod_upper_bound. simpl. lia. }
  exists c. split; [by eapply list_elem_of_lookup_2|done].
Qed.

Lemma choices_spec (n : nat) (chars : list ascii) (m : Mem) :
  chars <> [] ->
  exists cs,
    length cs = n /\ Forall (fun c => c ∈ chars) cs /\
    choices n chars m
    = (Ret cs, {| self := self m;
                  world := set_drawn (drawn (world m) + n) (world m) |}).
Proof.
  intros Hne. revert m. induction n as [|n IH]; intros m.
  - exists []. split_and!; [done | done |].
    cbn [choices]. unfold ret, set_drawn. rewrite Nat.add_0_r.
    by destruct m as [pm []].
  - destruct (secrets_choice_spec chars m Hne) as (c & Hc & Hrun).
    destruct (IH {| self := self m;
                    world := set_drawn (S (drawn (world m))) (world m) |})
      as (cs & Hlen & Hall & Hrest).
    exists (c :: cs). split_and!; [simpl; lia | by constructor |].
    cbn [choices]. unfold bind at 1. rewrite Hrun.
    unfold bind at 1. rewrite Hrest. unfold ret, set_drawn.
    cbn [self world drawn fs faults entropy today].
    by replace (drawn (world m) + S n)%nat
      with (S (drawn (world m)) + n)%nat by lia.
Qed.

Lemma char_pool_nonempty (u l d sp : bool) :
  String.list_ascii_of_string (char_pool u l d sp) <> [].
Proof. by destruct u, l, d, sp. Qed.

Lemma generate_password_spec (n : Z) (u l d sp : bool) (m : Mem) :
  exists cs,
    length cs = Z.to_nat n /\
    Forall (fun c => c ∈ String.list_ascii_of_string (char_pool u l d sp))
           cs /\
    generate_password n u l d sp m
    = (Ret (String.string_of_list_ascii cs),
       {| self := self m;
          world := set_drawn (drawn (world m) + Z.to_nat n) (world m) |}).
Proof.
  destruct (choices_spec (Z.to_nat n) _ m (char_pool_nonempty u l d sp))
    as (cs & Hlen & Hall & Hrun).
  exists cs. split_and!; [done | done |].
  unfold generate_password, bind. by rewrite Hrun.
Qed.

Lemma vault_with_entry_two_steps (v : Vault) (service username : string)
    (e : Entry) :
  let v1 := if bool_decide (is_Some (v !! service)) then v
            else <[service := ∅]> v in
  exists usernames,
    v1 !! service = Some usernames /\
    <[service := <[username := e]> usernames]> v1
    = vault_with_entry v service username e.
Proof.
  unfold vault_with_entry. cbv zeta. case_bool_decide as Hin.
  - destruct Hin as [us Hus]. exists us. by rewrite Hus.
  - apply eq_None_not_Some in Hin. exists ∅.
    rewrite lookup_insert_eq, Hin. split; [done|].
    by rewrite insert_insert_eq.
Qed.

(** [add_password] on an unlocked store: the password given or generated
    is stored, then the vault is saved. *)
Lemma add_password_unfold service username pw url notes (m : Mem) :
  initialized (self m) = true ->
  exists p w0,
    (forall p', pw = Some p' -> p = p' /\ w0 = world m) /\
    let e := {| password := p; url := url; notes := notes;
                date_modified := today w0 |} in
    let m1 := {| self := with_vault (self m)
                           (vault_with_entry (vault (self m))
                                             service username e);
                 world := w0 |} in
    add_password service username pw url notes m
    = (Ret (saved m1), {| self := self m1; world := world_after_save m1 |}).
Proof.
  intros Hinit. unfold add_password. run_step. rewrite Hinit. cbn [negb].
  assert (Hgen : exists p w0,
             (forall p', pw = Some p' -> p = p' /\ w0 = world m) /\
             today w0 = today w0 /\
             match pw with
             | Some p => ret p
             | None => generate_password 16 true true true true
             end m = (Ret p, {| self := self m; world := w0 |})).
  { destruct pw as [p|].
    - exists p, (world m). split_and!; [by intros ? [= <-] | done |].
      by destruct m.
    - destruct (generate_password_spec 16 true true true true m)
        as (cs & _ & _ & Hrun).
      eexists _, _. split_and!; [done | done | exact Hrun]. }
  destruct Hgen as (p & w0 & Hp & _ & Hrun).
  exists p, w0. split; [done|]. cbv zeta.
  unfold bind at 1. rewrite Hrun. run_step.
  destruct (vault_with_entry_two_steps (vault (self m)) service username
              {| password := p; url := url; notes := notes;
                 date_modified := today w0 |}) as (us & Hus & Heq).
  cbv zeta in Hus, Heq.
  unfold _get_current_date.
  case_bool_decide as Hin; run_step; rewrite Hus; run_step;
    rewrite Heq, save_vault_eq; done.
Qed.

(** [remove_password], case by case. *)
Lemma remove_password_unfold service username (m : Mem) :
  remove_password service username m =
  if initialized (self m) && has_target (vault (self m)) service username
  then
    let m1 := {| self := with_vault (self m)
                           (vault_without (vault (self m)) service username);
                 world := world m |} in
    (Ret (saved m1), {| self := self m1; world := world_after_save m1 |})
  else (Ret false, m).
Proof.
  unfold remove_password, has_target, vault_without. run_step.
  destruct (initialized (self m)); cbn [negb andb]; [|done].
  destruct (vault (self m) !! service) as [us|] eqn:Hus; [|done].
  destruct username as [u|]; run_step.
  - case_bool_decide as Hin; [|done]. run_step.
    case_bool_decide as Hempty; run_step.
    + by rewrite delete_insert_eq, save_vault_eq.
    + by rewrite save_vault_eq.
  - by rewrite save_vault_eq.
Qed.

Lemma get_password_unfold service username (m : Mem) :
  get_password service username m
  = (Ret (if initialized (self m)
          then lookup_entry (vault (self m)) service username
          else None), m).
Proof.
  unfold get_password, lookup_entry. run_step.
  destruct (initialized (self m)); cbn [negb]; [|done].
  destruct (vault (self m) !! service) as [us|]; [|done]. simpl.
  by destruct (us !! username).
Qed.

(** C5, as the code has it: [save_vault] always returns a truth value
    and never raises; it changes no attribute of the object, whatever
    goes wrong (in particular the key, salt, IV and vault in memory
    are as before when it fails); a fault at the [open] or during the
    write makes it return [False]; and when it returns [True] the
    container holds the salt, the IV and the encrypted vault.  The file
    is overwritten in place. *)
Theorem save_vault_in_place (m : Mem) :
  (exists b, (save_vault m).1 = Ret b) /\
  self (save_vault m).2 = self m /\
  (forall f, mjoin (head (faults (world m))) = Some f ->
             (save_vault m).1 = Ret false) /\
  ((save_vault m).1 = Ret true ->
   exists s i c,
     salt (self m) = Some s /\ iv (self m) = Some i /\
     _encrypt (utf8_encode (json_dumps (vault (self m))))
              (master_key (self m)) (Some i) = Ret c /\
     fs (world (save_vault m).2) !! vault_file (self m) = Some (s ++ i ++ c)).
Proof.
  split_and!.
  - apply save_vault_returns.
  - apply save_vault_self.
  - apply save_vault_fault.
  - intros Hr. apply save_vault_true in Hr
      as (_ & s & i & c & Hs & Hi & He & Hfs & _).
    exists s, i, c. by split_and!.
Qed.

Lemma create_new_vault_unfold (P : string) (m : Mem) :
  _create_new_vault P m = (Ret tt, created P m).
Proof.
  unfold _create_new_vault, created.
  rewrite run_bind_os_urandom. run_step.
  rewrite run_bind_os_urandom. run_step.
  cbn [_derive_key]. run_step.
  rewrite run_bind_save_vault. by run_step.
Qed.

Lemma load_vault_unfold (data : bytes) (P : string) (m : Mem) :
  _load_vault data P m
  = (match decode_container data P with
     | Ret _ => Ret true
     | Raise _ => Ret false
     end, loaded data P m).
Proof.
  unfold _load_vault, loaded, decode_container, try_except. cbv zeta.
  run_step. cbn [_derive_key obind]. run_step.
  destruct (_decrypt _ _ _) as [d|]; cbn [obind]; [|by run_step].
  run_step.
  destruct (utf8_decode d) as [t|]; cbn [obind]; [|by run_step].
  run_step.
  destruct (json_loads t) as [v|]; by run_step.
Qed.

Lemma initialize_unfold (P : string) (m : Mem) :
  initialize P m =
  match fs (world m) !! vault_file (self m) with
  | None => (Ret PyNone, created P m)
  | Some data =>
      let m0 := {| self := self m; world := after_open (world m) |} in
      match mjoin (head (faults (world m))) with
      | Some _ => (Raise OSError, m0)
      | None =>
          if len data =? 0 then (Ret PyNone, created P m0)
          else (Ret PyNone, loaded data P m0)
      end
  end.
Proof.
  unfold initialize, os_path_exists, read_file, next_fault, after_open.
  run_step.
  destruct (fs (world m) !! vault_file (self m)) as [data|] eqn:Hfile.
  - rewrite bool_decide_eq_true_2 by eauto. run_step.
    cbn [set_faults fs]. rewrite Hfile.
    destruct (mjoin (head (faults (world m)))) as [f|]; run_step; [done|].
    destruct (len data =? 0); run_step.
    + unfold bind. by rewrite create_new_vault_unfold.
    + unfold bind. rewrite load_vault_unfold.
      by destruct (decode_container data P).
  - rewrite bool_decide_eq_false_2 by (by intros [? ?]). run_step.
    unfold bind. by rewrite create_new_vault_unfold.
Qed.

(** C2, as the code has it: on a container that exists, is not empty and
    can be read, [initialize] returns [None] and raises nothing; when the
    decryption, the padding strip, the UTF-8 decoding or the JSON parse
    raises, the store is left locked ([initialized] is [False]) and every
    [get_password] returns [None]; otherwise it is unlocked on the decoded
    vault.  Failure is reported by the [initialized] attribute. *)
Theorem initialize_failure_locks (P : string) (m : Mem) (data : bytes) :
  fs (world m) !! vault_file (self m) = Some data ->
  data <> [] ->
  next_open_ok (world m) ->
  (initialize P m).1 = Ret PyNone /\
  match decode_container data P with
  | Ret v =>
      initialized (self (initialize P m).2) = true /\
      vault (self (initialize P m).2) = v
  | Raise _ =>
      initialized (self (initialize P m).2) = false /\
      forall service username,
        get_password service username (initialize P m).2
        = (Ret None, (initialize P m).2)
  end.
Proof.
  intros Hfile Hne Hopen. rewrite initialize_unfold, Hfile. cbv zeta.
  unfold next_open_ok in Hopen. rewrite Hopen.
  assert ((len data =? 0) = false) as ->.
  { apply Z.eqb_neq. destruct data; [done|]. unfold len. simpl. lia. }
  split; [done|]. cbn [snd]. unfold loaded.
  destruct (decode_container data P) as [v|e]; cbn [self session
    initialized vault]; [done|].
  split; [done|]. intros service username. by rewrite get_password_unfold.
Qed.

Lemma add_password_locked service username pw url notes (m : Mem) :
  initialized (self m) = false ->
  add_password service username pw url notes m = (Ret false, m).
Proof. intros Hinit. unfold add_password. run_step. by rewrite Hinit. Qed.

Lemma get_all_services_unfold (m : Mem) :
  get_all_services m
  = (Ret (if initialized (self m)
          then sorted (map fst (map_to_list (vault (self m))))
          else []), m).
Proof.
  unfold get_all_services. run_step. by destruct (initialized (self m)).
Qed.

Lemma get_usernames_unfold (service : string) (m : Mem) :
  (get_usernames service m).2 = m.
Proof.
  unfold get_usernames. run_step.
  by destruct (initialized (self m)), (vault (self m) !! service).
Qed.

Lemma elem_of_sorted_keys {V} (v : gmap string V) (k : string) :
  k ∈ sorted (map fst (map_to_list v)) <-> is_Some (v !! k).
Proof.
  unfold sorted. rewrite merge_sort_Permutation.
  rewrite list_elem_of_fmap. split.
  - intros [[k' x] [-> Hx%elem_of_map_to_list]]. eauto.
  - intros [x Hx]. exists (k, x). by rewrite elem_of_map_to_list.
Qed.

Lemma no_empty_service_with_entry (v : Vault) service username e :
  no_empty_service v -> no_empty_service (vault_with_entry v service username e).
Proof.
  intros Hv s us. unfold vault_with_entry.
  destruct (decide (s = service)) as [->|Hne].
  - rewrite lookup_insert_eq. intros [= <-]. apply insert_non_empty.
  - rewrite lookup_insert_ne by done. apply Hv.
Qed.

Lemma no_empty_service_without (v : Vault) service username :
  no_empty_service v -> no_empty_service (vault_without v service username).
Proof.
  intros Hv s us. unfold vault_without.
  assert (Hdel : delete service v !! s = Some us -> us <> ∅).
  { intros [_ Hs]%lookup_delete_Some. by eapply Hv. }
  destruct username as [u|]; [|done].
  destruct (v !! service) as [us'|] eqn:Hs; [|done].
  case_bool_decide as Hempty; [done|].
  destruct (decide (s = service)) as [->|Hne].
  - rewrite lookup_insert_eq. by intros [= <-].
  - rewrite lookup_insert_ne by done. apply Hv.
Qed.

Lemma run_iv (o : operation) (m : Mem) : iv (self (run o m)) = iv (self m).
Proof.
  destruct o as [s u p url n|s u|s u| |s|n u l d sp| |c n]; cbn [run].
  - destruct (initialized (self m)) eqn:Hinit.
    + by destruct (add_password_unfold s u p url n m Hinit) as (? & ? & _ & ->).
    + by rewrite add_password_locked.
  - by rewrite get_password_unfold.
  - rewrite remove_password_unfold. by destruct (_ && _).
  - by rewrite get_all_services_unfold.
  - by rewrite get_usernames_unfold.
  - by destruct (generate_password_spec n u l d sp m) as (? & _ & _ & ->).
  - by rewrite save_vault_self.
  - rewrite change_master_password_unfold. cbv zeta.
    destruct (negb _); [done|].
    destruct (salt _); [|done]. destruct (master_key _); [|done].
    case_bool_decide; [|done]. by destruct (saved _).
Qed.

(** C7 (the IV is framed): no operation on the store changes [self.iv],
    which only [_create_new_vault] and [_load_vault] assign; [save_vault]
    changes no attribute at all and [change_master_password] changes the
    salt and the key only; and the container that a successful save or
    rotation writes carries that same IV after the salt and is encrypted
    under it. *)
Theorem iv_is_framed (m : Mem) :
  (forall o : operation, iv (self (run o m)) = iv (self m)) /\
  self (save_vault m).2 = self m /\
  (forall current new,
      exists s k,
        self (change_master_password current new m).2
        = with_keys (self m) s k) /\
  (forall current new,
      (change_master_password current new m).1 = Ret true ->
      exists s i c,
        salt (self (change_master_password current new m).2) = Some s /\
        iv (self m) = Some i /\
        _encrypt (utf8_encode (json_dumps (vault (self m))))
                 (master_key (self (change_master_password current new m).2))
                 (Some i) = Ret c /\
        fs (world (change_master_password current new m).2)
          !! vault_file (self m) = Some (s ++ i ++ c)) /\
  ((save_vault m).1 = Ret true ->
   exists s i c,
     salt (self m) = Some s /\ iv (self m) = Some i /\
     _encrypt (utf8_encode (json_dumps (vault (self m))))
              (master_key (self m)) (Some i) = Ret c /\
     fs (world (save_vault m).2) !! vault_file (self m) = Some (s ++ i ++ c)).
Proof.
  split_and!.
  - intros o. apply run_iv.
  - apply save_vault_self.
  - intros current new. rewrite change_master_password_unfold. cbv zeta.
    assert (Hsame : exists s k, self m = with_keys (self m) s k).
    { exists (salt (self m)), (master_key (self m)). by destruct (self m). }
    destruct (negb _); [done|].
    destruct (salt (self m)); [|done]. destruct (master_key (self m)); [|done].
    case_bool_decide; [|done]. destruct (saved _); [by eexists _, _|done].
  - intros current new Hr.
    destruct (change_master_password_true current new m Hr)
      as (-> & i & c & Hi & He & Hfs).
    eexists _, i, c. by split_and!.
  - intros Hr. apply save_vault_true in Hr
      as (_ & s & i & c & Hs & Hi & He & Hfs & _).
    exists s, i, c. by split_and!.
Qed.

(** Every operation keeps the lock state and the invariant of the vault. *)
Lemma run_initialized (o : operation) (m : Mem) :
  initialized (self (run o m)) = initialized (self m).
Proof.
  destruct o as [s u p url n|s u|s u| |s|n u l d sp| |c n]; cbn [run].
  - destruct (initialized (self m)) eqn:Hinit.
    + by destruct (add_password_unfold s u p url n m Hinit) as (? & ? & _ & ->).
    + by rewrite add_password_locked.
  - by rewrite get_password_unfold.
  - rewrite remove_password_unfold. by destruct (_ && _).
  - by rewrite get_all_services_unfold.
  - by rewrite get_usernames_unfold.
  - by destruct (generate_password_spec n u l d sp m) as (? & _ & _ & ->).
  - by rewrite save_vault_self.
  - rewrite change_master_password_unfold. cbv zeta.
    destruct (negb _); [done|].
    destruct (salt _); [|done]. destruct (master_key _); [|done].
    case_bool_decide; [|done]. by destruct (saved _).
Qed.

Lemma run_no_empty_service (o : operation) (m : Mem) :
  no_empty_service (vault (self m)) ->
  no_empty_service (vault (self (run o m))).
Proof.
  intros Hv.
  destruct o as [s u p url n|s u|s u| |s|n u l d sp| |c n]; cbn [run].
  - destruct (initialized (self m)) eqn:Hinit.
    + destruct (add_password_unfold s u p url n m Hinit) as (? & ? & _ & ->).
      by apply no_empty_service_with_entry.
    + by rewrite add_password_locked.
  - by rewrite get_password_unfold.
  - rewrite remove_password_unfold. destruct (_ && _); [|done].
    by apply no_empty_service_without.
  - by rewrite get_all_services_unfold.
  - by rewrite get_usernames_unfold.
  - by destruct (generate_password_spec n u l d sp m) as (? & _ & _ & ->).
  - by rewrite save_vault_self.
  - rewrite change_master_password_unfold. cbv zeta.
    destruct (negb _); [done|].
    destruct (salt _); [|done]. destruct (master_key _); [|done].
    case_bool_decide; [|done]. by destruct (saved _).
Qed.

Lemma vault_without_lookup (v : Vault) service username usernames :
  v !! service = Some usernames ->
  vault_without v service (Some username) !! service
  = if bool_decide (delete username usernames = ∅) then None
    else Some (delete username usernames).
Proof.
  intros Hs. unfold vault_without. rewrite Hs.
  case_bool_decide; [apply lookup_delete_eq | apply lookup_insert_eq].
Qed.

Lemma vault_without_other (v : Vault) service username usernames s u :
  v !! service = Some usernames ->
  (s, u) <> (service, username) ->
  lookup_entry (vault_without v service (Some username)) s u
  = lookup_entry v s u.
Proof.
  intros Hs Hne. unfold lookup_entry.
  destruct (decide (s = service)) as [->|Hsne].
  - rewrite (vault_without_lookup _ _ _ _ Hs), Hs.
    assert (u <> username) as Hu by congruence. simpl.
    case_bool_decide as Hempty; simpl.
    + by rewrite <- (lookup_delete_ne usernames username u), Hempty.
    + by rewrite lookup_delete_ne.
  - unfold vault_without. rewrite Hs.
    case_bool_decide; by rewrite ?lookup_delete_ne, ?lookup_insert_ne.
Qed.

(** C8 (removal and the vault invariant), on an unlocked store:
    removing [(service, username)] removes that entry and no other, and
    removes the service when that leaves it without usernames, after which
    [get_all_services] does not list it; removing a service without a
    username deletes the service with all its entries; when the target is
    not in the vault [remove_password] returns [False] and changes nothing;
    and every sequence of operations leaves the store unlocked and leads
    from a vault without an empty service to a vault without one. *)
Theorem removal_semantics (m : Mem) (service : string) :
  initialized (self m) = true ->
  (forall username usernames,
      vault (self m) !! service = Some usernames ->
      is_Some (usernames !! username) ->
      let m' := (remove_password service (Some username) m).2 in
      lookup_entry (vault (self m')) service username = None /\
      (forall s u, (s, u) <> (service, username) ->
                   lookup_entry (vault (self m')) s u
                   = lookup_entry (vault (self m)) s u) /\
      vault (self m') !! service
      = (if bool_decide (delete username usernames = ∅) then None
         else Some (delete username usernames)) /\
      (delete username usernames = ∅ ->
       forall l, (get_all_services m').1 = Ret l -> service ∉ l)) /\
  (is_Some (vault (self m) !! service) ->
   vault (self (remove_password service None m).2)
   = delete service (vault (self m))) /\
  (forall username,
      has_target (vault (self m)) service username = false ->
      remove_password service username m = (Ret false, m)) /\
  (forall ops : list operation,
      no_empty_service (vault (self m)) ->
      let m' := foldl (fun m' o => run o m') m ops in
      initialized (self m') = true /\ no_empty_service (vault (self m'))).
Proof.
  intros Hinit. split_and!.
  - intros username usernames Hs Hu. cbv zeta.
    rewrite remove_password_unfold, Hinit. unfold has_target. rewrite Hs.
    rewrite bool_decide_eq_true_2 by done. cbn [andb snd self with_vault vault].
    pose proof (vault_without_lookup _ _ username _ Hs) as Hl.
    split_and!.
    + unfold lookup_entry. rewrite Hl.
      case_bool_decide; simpl; [done | apply lookup_delete_eq].
    + intros s u Hne. by eapply vault_without_other.
    + done.
    + intros Hempty l. rewrite get_all_services_unfold.
      cbn [fst self initialized with_vault vault]. rewrite Hinit.
      intros [= <-]. rewrite elem_of_sorted_keys.
      cbn [self with_vault vault]. rewrite Hs.
      rewrite bool_decide_eq_true_2, lookup_delete_eq by done.
      by intros [? ?].
  - intros [us Hs]. rewrite remove_password_unfold, Hinit.
    unfold has_target. by rewrite Hs.
  - intros username Ht. by rewrite remove_password_unfold, Hinit, Ht.
  - intros ops. cbv zeta. revert m Hinit.
    induction ops as [|o ops IH]; intros m Hinit Hv; [done|].
    cbn [foldl]. apply IH; [by rewrite run_initialized|].
    by apply run_no_empty_service.
Qed.

Lemma pool_without_upper (l d sp : bool) :
  l || d || sp = true ->
  forallb (fun c => negb (isupper c))
          (String.list_ascii_of_string (char_pool false l d sp)) = true.
Proof.
  destruct l, d, sp; intros Hsome; try discriminate Hsome;
    vm_compute; reflexivity.
Qed.

Lemma string_length_of_list (cs : list ascii) :
  String.length (String.string_of_list_ascii cs) = length cs.
Proof. induction cs as [|c cs IH]; simpl; [done | by rewrite IH]. Qed.

(** C9 (generation policy): [generate_password] raises nothing and
    returns a string of [max(length, 0)] characters, each of them in the
    pool; the pool is the concatenation of the enabled classes, or letters,
    digits and punctuation when none is enabled; a length of zero or less
    gives the empty string; and with upper case disabled and another class
    enabled no character of the result is in [A-Z]. *)
Theorem generation_policy (n : Z) (u l d sp : bool) (m : Mem) :
  exists pw : string,
    (generate_password n u l d sp m).1 = Ret pw /\
    String.length pw = Z.to_nat (Z.max n 0) /\
    (forall c, c ∈ String.list_ascii_of_string pw ->
               c ∈ String.list_ascii_of_string (char_pool u l d sp)) /\
    char_pool u l d sp
    = (if u || l || d || sp
       then (if u then ascii_uppercase else "")
              +:+ (if l then ascii_lowercase else "")
              +:+ (if d then digits else "")
              +:+ (if sp then punctuation else "")
       else ascii_letters +:+ digits +:+ punctuation) /\
    (n <= 0 -> pw = "") /\
    (u = false -> l || d || sp = true ->
     forall c, c ∈ String.list_ascii_of_string pw -> isupper c = false).
Proof.
  destruct (generate_password_spec n u l d sp m) as (cs & Hlen & Hall & Hrun).
  exists (String.string_of_list_ascii cs). rewrite Hrun.
  rewrite String.list_ascii_of_string_of_list_ascii.
  rewrite Forall_forall in Hall. split_and!.
  - done.
  - rewrite string_length_of_list, Hlen. lia.
  - done.
  - by destruct u, l, d, sp.
  - intros Hn. destruct cs; [done|]. simpl in Hlen. lia.
  - intros -> Hsome c Hc. apply Hall, list_elem_of_In in Hc.
    pose proof (pool_without_upper l d sp Hsome) as Hpool.
    rewrite forallb_forall in Hpool. apply Hpool in Hc.
    by destruct (isupper c).
Qed.
End MethodFacts.

(** ** Saving and loading again *)

Lemma container_slices (s i c : bytes) :
  length s = 16%nat -> length i = 16%nat ->
  let data := s ++ i ++ c in
  py_slice (py_slice data None (Some 32)) None (Some 16) = s /\
  py_slice (py_slice data None (Some 32)) (Some 16) (Some 32) = i /\
  py_slice data (Some 32) None = c.
Proof.
  intros Hs Hi. cbv zeta.
  change 32 with (Z.of_nat 32). change 16 with (Z.of_nat 16).
  rewrite !py_slice_prefix, py_slice_suffix, py_slice_range by lia.
  assert (Ht : take 32 (s ++ i ++ c) = s ++ i).
  { rewrite app_assoc. apply take_app_length'. rewrite length_app. lia. }
  rewrite Ht. split_and!.
  - by apply take_app_length'.
  - rewrite drop_app_length' by done. apply take_ge. lia.
  - rewrite app_assoc. apply drop_app_length'. rewrite length_app. lia.
Qed.

Section Persistence.
Context `{Library}.

Hypothesis aes_block_length : forall key block : bytes,
  length key = 32%nat -> length block = 16%nat ->
  length (aes_encrypt_block key block) = 16%nat.
Hypothesis aes_decrypt_encrypt : forall key block : bytes,
  length key = 32%nat -> length block = 16%nat ->
  aes_decrypt_block key (aes_encrypt_block key block) = block.
(** The key derivation is run with [length=32]. *)
Hypothesis kdf_length : forall pw s : bytes,
  length (pbkdf2_hmac_sha256 pw s) = 32%nat.
(** The codecs invert each other on what the engine writes. *)
Hypothesis utf8_round_trip : forall t : string,
  utf8_decode (utf8_encode t) = Ret t.
Hypothesis json_round_trip : forall v : Vault,
  json_loads (json_dumps v) = Ret v.

Lemma decode_container_saved (P : string) (v : Vault) (s i c : bytes) :
  length s = 16%nat -> length i = 16%nat ->
  _encrypt (utf8_encode (json_dumps v))
           (Some (pbkdf2_hmac_sha256 (utf8_encode P) s)) (Some i) = Ret c ->
  decode_container (s ++ i ++ c) P = Ret v.
Proof.
  intros Hs Hi He. unfold decode_container.
  destruct (container_slices s i c Hs Hi) as (-> & -> & ->).
  cbn [_derive_key obind].
  destruct (decrypt_encrypt aes_block_length aes_decrypt_encrypt
              (utf8_encode (json_dumps v))
              (pbkdf2_hmac_sha256 (utf8_encode P) s) i (kdf_length _ _) Hi)
    as (c' & He' & Hd & _).
  rewrite He in He'. injection He' as <-.
  rewrite Hd. cbn [obind]. rewrite utf8_round_trip. cbn [obind].
  apply json_round_trip.
Qed.

(** A store that holds its key under [P] and has just saved its vault is
    found again, attribute by attribute, by a fresh store that is
    initialized with [P] on the same file. *)
Lemma initialize_after_save (P : string) (m : Mem) :
  keyed_by P (self m) ->
  (save_vault m).1 = Ret true ->
  next_open_ok (world (save_vault m).2) ->
  initialize P {| self := __init__ (vault_file (self m));
                  world := world (save_vault m).2 |}
  = (Ret PyNone, {| self := self m;
                    world := after_open (world (save_vault m).2) |}).
Proof.
  intros (Hinit & s & i & Hs & Hsl & Hi & Hil & Hk) Hsave Hopen.
  apply save_vault_true in Hsave
    as (_ & s' & i' & c & Hs' & Hi' & He & Hfs & _).
  rewrite Hs in Hs'. rewrite Hi in Hi'.
  injection Hs' as <-. injection Hi' as <-. rewrite Hk in He.
  rewrite initialize_unfold. cbn [self world __init__ vault_file].
  rewrite Hfs. cbv zeta. unfold next_open_ok in Hopen. rewrite Hopen.
  assert ((len (s ++ i ++ c) =? 0) = false) as ->.
  { apply Z.eqb_neq. unfold len. rewrite length_app. lia. }
  unfold loaded.
  rewrite (decode_container_saved P _ s i c Hsl Hil He).
  destruct (container_slices s i c Hsl Hil) as (-> & -> & _).
  cbn [self world session vault_file]. do 2 f_equal.
  unfold session. cbn [__init__ vault_file].
  destruct (self m); cbn [salt iv master_key initialized] in *. by subst.
Qed.

Lemma keyed_by_with_vault (P : string) (pm : PasswordManager) (v : Vault) :
  keyed_by P pm -> keyed_by P (with_vault pm v).
Proof. intros (Hinit & s & i & Hrest). split; [done|]. by exists s, i. Qed.

Lemma keyed_by_loaded (P : string) (pm : PasswordManager) data v :
  decode_container data P = Ret v ->
  let s := py_slice (py_slice data None (Some 32)) None (Some 16) in
  let i := py_slice (py_slice data None (Some 32)) (Some 16) (Some 32) in
  keyed_by P (session pm (Some (pbkdf2_hmac_sha256 (utf8_encode P) s)) v
                      (Some s) (Some i) true).
Proof.
  cbv zeta. unfold decode_container. cbn [_derive_key obind].
  set (s := py_slice (py_slice data None (Some 32)) None (Some 16)).
  set (i := py_slice (py_slice data None (Some 32)) (Some 16) (Some 32)).
  intros Hdec.
  assert (Hil : length i = 16%nat).
  { unfold _decrypt, Cipher in Hdec.
    destruct (bool_decide (len _ = 16 \/ _)); [|done].
    case_bool_decide as Hlen; [|done]. unfold len in Hlen. lia. }
  split; [done|]. exists s, i. split_and!; try done.
  (* the IV is bytes 16..32, so the salt before it is whole *)
  subst s i. revert Hil.
  change 32 with (Z.of_nat 32). change 16 with (Z.of_nat 16).
  rewrite !py_slice_prefix, py_slice_range by lia.
  rewrite !length_take, length_drop, length_take. lia.
Qed.

Lemma keyed_by_created (P : string) (m : Mem) : keyed_by P (self (created P m)).
Proof.
  unfold created. cbn [self]. split; [reflexivity|]. eexists _, _.
  split_and!; [reflexivity | apply urandom_bytes_length | reflexivity
              | apply urandom_bytes_length | reflexivity].
Qed.

Lemma keyed_by_initialize (P : string) (m : Mem) :
  (initialize P m).1 = Ret PyNone ->
  initialized (self (initialize P m).2) = true ->
  keyed_by P (self (initialize P m).2).
Proof.
  rewrite initialize_unfold.
  destruct (fs (world m) !! vault_file (self m)) as [data|];
    [|intros _ _; apply keyed_by_created].
  cbv zeta. destruct (mjoin _); [done|].
  destruct (len data =? 0); [intros _ _; apply keyed_by_created|].
  cbn [snd]. unfold loaded.
  destruct (decode_container data P) as [v|] eqn:Hdec; [|done].
  intros _ _. by apply keyed_by_loaded.
Qed.

Lemma keyed_by_unlocked (P : string) (m : Mem) :
  unlocked_by P m -> keyed_by P (self m).
Proof.
  induction 1 as [P m Hr Hinit|P m s u pw url n _ IH|P m s u _ IH|P m _ IH
                 |P m n u l d sp _ IH|P m c n _ IH Hr|P m c n _ IH Hr].
  - by apply keyed_by_initialize.
  - destruct (add_password_unfold s u pw url n m (proj1 IH))
      as (? & ? & _ & ->).
    by apply keyed_by_with_vault.
  - rewrite remove_password_unfold. destruct (_ && _); [|done].
    by apply keyed_by_with_vault.
  - by rewrite save_vault_self.
  - by destruct (generate_password_spec n u l d sp m) as (? & _ & _ & ->).
  - destruct (change_master_password_true c n m Hr) as (-> & _).
    destruct IH as (Hinit & s & i & Hs & Hsl & Hi & Hil & Hk).
    split; [exact Hinit|]. eexists _, i. cbn [with_keys salt iv master_key].
    split_and!; [reflexivity | apply urandom_bytes_length | exact Hi
                | exact Hil | reflexivity].
  - revert Hr. rewrite change_master_password_unfold. cbv zeta.
    destruct (negb _); [done|].
    destruct (salt _); [|done]. destruct (master_key _); [|done].
    case_bool_decide; [|done]. by destruct (saved _).
Qed.

(** C1 (unlock after persisting): take a store unlocked with the master
    password [P] (created or loaded with it, then used), add an entry
    with [add_password] and let the save succeed; then a fresh store on
    the same file whose [open] succeeds is unlocked by [initialize] with
    [P], holds the same vault, and [get_password] returns the entry with
    the password that was stored. *)
Theorem unlock_round_trip (P : string) (m : Mem)
    (service username pw url notes : string) :
  unlocked_by P m ->
  (add_password service username (Some pw) url notes m).1 = Ret true ->
  let m1 := (add_password service username (Some pw) url notes m).2 in
  next_open_ok (world m1) ->
  let r := initialize P {| self := __init__ (vault_file (self m1));
                           world := world m1 |} in
  r.1 = Ret PyNone /\
  initialized (self r.2) = true /\
  vault (self r.2) = vault (self m1) /\
  exists e,
    (get_password service username r.2).1 = Ret (Some e) /\
    password e = pw.
Proof.
  intros Hm%keyed_by_unlocked Hadd. cbv zeta.
  destruct (add_password_unfold service username (Some pw) url notes m
              (proj1 Hm)) as (p & w0 & Hp & Heq).
  destruct (Hp pw eq_refl) as [-> ->]. cbv zeta in Heq. revert Hadd.
  rewrite Heq. cbn [fst snd self world].
  set (v := vault_with_entry _ _ _ _).
  set (m1 := {| self := with_vault (self m) v; world := world m |}).
  intros [= Hsaved] Hopen.
  assert (Hk : keyed_by P (self m1)) by by apply keyed_by_with_vault.
  apply saved_true in Hsaved.
  pose proof (initialize_after_save P m1 Hk Hsaved Hopen) as Hinit.
  change (world (save_vault m1).2) with (world_after_save m1) in Hinit.
  change (vault_file (with_vault (self m) v)) with (vault_file (self m1)).
  rewrite Hinit. cbn [fst snd self]. split_and!; [done | apply Hk | done |].
  rewrite get_password_unfold. cbn [fst self]. rewrite (proj1 Hk).
  eexists. split.
  - unfold lookup_entry, m1, v, vault_with_entry. cbn [self with_vault vault].
    rewrite lookup_insert_eq. simpl. by rewrite lookup_insert_eq.
  - done.
Qed.
End Persistence.

(** ** The strength scorer *)

Lemma repeat_pattern_needs_backslash (s : list ascii) (k : list ascii -> bool) :
  rmatch repeat_pattern s k = true ->
  exists a rest, s = a :: "\"%char :: "1"%char :: "1"%char :: rest.
Proof.
  destruct s as [|a [|b [|c [|d rest]]]]; cbn [rmatch repeat_pattern rat_least];
    rewrite ?andb_false_r; try done.
  intros (_ & (->%Ascii.eqb_eq & (->%Ascii.eqb_eq & (->%Ascii.eqb_eq & _)
    %andb_prop)%andb_prop)%andb_prop)%andb_prop.
  eauto.
Qed.

Lemma repeat_pattern_not_on_run (c : ascii) (n : nat) :
  re_search repeat_pattern (replicate n c) = false.
Proof.
  induction n as [|n IH]; cbn [replicate re_search].
  - by destruct (rmatch _ _ _) eqn:Hm;
      [apply repeat_pattern_needs_backslash in Hm as (? & ? & ?)|].
  - rewrite IH, orb_false_r.
    destruct (rmatch _ _ _) eqn:Hm; [|done].
    apply repeat_pattern_needs_backslash in Hm as (a & rest & Heq).
    destruct n as [|[|[|n]]]; cbn [replicate] in Heq; simplify_eq.
Qed.

(** C6 (the check for repeated characters): the pattern of the source
    matches no run of one repeated character, whatever its length, so no
    penalty and no feedback follow from such a run; on ["aaaaaaaa"], which
    has a run of three equal characters, the score is 25 and the feedback
    names the three missing classes only. *)
Theorem repeated_run_not_penalised :
  (forall (c : ascii) (n : nat),
      re_search repeat_pattern (replicate n c) = false) /\
  has_repeated_run (String.list_ascii_of_string "aaaaaaaa") = true /\
  check_password_strength "aaaaaaaa"
  = (25, "Very Weak",
     ["Add uppercase letters"; "Add numbers"; "Add special characters"]) /\
  "Avoid repeating characters"
    ∉ (check_password_strength "aaaaaaaa").2.
Proof.
  split_and!.
  - apply repeat_pattern_not_on_run.
  - reflexivity.
  - vm_compute. reflexivity.
  - replace ((check_password_strength "aaaaaaaa").2)
      with ["Add uppercase letters"; "Add numbers"; "Add special characters"]
      by (vm_compute; reflexivity).
    rewrite !elem_of_cons, elem_of_nil. by intros [|[|[|]]].
Qed.

(** ** The instance satisfies what is assumed of the library *)

Lemma demo_aes_block_length (key block : bytes) :
  length key = 32%nat -> length block = 16%nat ->
  length (@aes_encrypt_block demo_library key block) = 16%nat.
Proof.
  intros Hk Hb. simpl. rewrite xor_bytes_length; rewrite ?length_take; lia.
Qed.

Lemma demo_aes_decrypt_encrypt (key block : bytes) :
  length key = 32%nat -> length block = 16%nat ->
  @aes_decrypt_block demo_library key (@aes_encrypt_block demo_library key block)
  = block.
Proof.
  intros Hk Hb. simpl. apply xor_bytes_cancel. rewrite length_take. lia.
Qed.

Lemma demo_kdf_length (pw s : bytes) :
  length (@pbkdf2_hmac_sha256 demo_library pw s) = 32%nat.
Proof.
  change (length (take 32 (pw ++ s ++ replicate 32 Byte.x00)) = 32%nat).
  rewrite length_take, !length_app, length_replicate. lia.
Qed.

Lemma demo_utf8_round_trip (t : string) :
  @utf8_decode demo_library (@utf8_encode demo_library t) = Ret t.
Proof.
  simpl. f_equal. rewrite map_map.
  rewrite (map_ext _ id), map_id by apply ascii_of_byte_of_ascii.
  apply String.string_of_list_ascii_of_string.
Qed.

Lemma pos_of_digits_of_pos (p : positive) :
  pos_of_digits (digits_of_pos p) = Some p.
Proof. induction p as [p IH|p IH|]; simpl; by rewrite ?IH. Qed.

Lemma demo_json_round_trip (v : Vault) :
  @json_loads demo_library (@json_dumps demo_library v) = Ret v.
Proof.
  simpl. rewrite pos_of_digits_of_pos. simpl. by rewrite decode_encode.
Qed.

(** ** Concrete runs *)

Lemma codec_round_trip_witness :
  length (replicate 32 Byte.x2a) = 32%nat /\
  length (replicate 16 Byte.x07) = 16%nat /\
  exists c,
    @_encrypt demo_library [Byte.x68; Byte.x69]
      (Some (replicate 32 Byte.x2a)) (Some (replicate 16 Byte.x07)) = Ret c /\
    @_decrypt demo_library c
      (Some (replicate 32 Byte.x2a)) (Some (replicate 16 Byte.x07))
    = Ret [Byte.x68; Byte.x69].
Proof.
  split; [reflexivity|]. split; [reflexivity|].
  apply (@codec_round_trip demo_library demo_aes_block_length
           demo_aes_decrypt_encrypt
           (replicate 32 Byte.x2a) (replicate 16 Byte.x07)
           [Byte.x68; Byte.x69]); reflexivity.
Defined.

Lemma unpad_not_total_witness :
  _unpad [] = Raise IndexError /\
  _unpad [Byte.x41; Byte.x00] = Ret [] /\
  @_decrypt demo_library []
    (Some (replicate 32 Byte.x2a)) (Some (replicate 16 Byte.x07))
  = Raise IndexError /\
  @_decrypt demo_library
    (@aes_encrypt_block demo_library (replicate 32 Byte.x2a)
       (xor_bytes (replicate 15 Byte.x41 ++ [Byte.x00])
                  (replicate 16 Byte.x07)))
    (Some (replicate 32 Byte.x2a)) (Some (replicate 16 Byte.x07)) = Ret [].
Proof.
  destruct (@unpad_not_total demo_library demo_aes_block_length
              demo_aes_decrypt_encrypt) as (H1 & H2 & H3 & H4).
  split; [exact H1|]. split; [apply H2; reflexivity|].
  split; [apply H3; reflexivity|]. apply H4; reflexivity.
Defined.

Section Runs.
#[local] Existing Instance demo_library.

Lemma demo_unlocked_by : unlocked_by "correct-horse" demo_unlocked.
Proof. apply ub_initialize; vm_compute; reflexivity. Qed.

Lemma unlock_round_trip_witness :
  unlocked_by "correct-horse" demo_unlocked /\
  (add_password "github" "alice" (Some "P@ssw0rd1") "" "" demo_unlocked).1
  = Ret true /\
  exists e,
    (get_password "github" "alice"
       (initialize "correct-horse" (reopened demo_stored)).2).1
    = Ret (Some e) /\
    password e = "P@ssw0rd1".
Proof.
  split; [exact demo_unlocked_by|]. split; [vm_compute; reflexivity|].
  refine (proj2 (proj2 (proj2
    (unlock_round_trip demo_aes_block_length demo_aes_decrypt_encrypt
       demo_kdf_length demo_utf8_round_trip demo_json_round_trip
       "correct-horse" demo_unlocked "github" "alice" "P@ssw0rd1" "" ""
       demo_unlocked_by _ _)))); vm_compute; reflexivity.
Defined.

(** A container that fails to decode, by a wrong password or by damage,
    leaves the store locked, and [initialize] returns [None], not
    [False]. *)
Lemma initialize_failure_returns_none :
  (initialized (self demo_wrong_password.2) = false /\
   demo_wrong_password.1 = Ret PyNone /\
   demo_wrong_password.1 <> Ret (PyBool false)) /\
  (initialized (self demo_damaged.2) = false /\
   demo_damaged.1 = Ret PyNone /\
   demo_damaged.1 <> Ret (PyBool false)).
Proof.
  assert (Hw : demo_wrong_password.1 = Ret PyNone) by (vm_compute; reflexivity).
  assert (Hd : demo_damaged.1 = Ret PyNone) by (vm_compute; reflexivity).
  rewrite Hw, Hd. split_and!; try done; vm_compute; reflexivity.
Qed.

(** When the container cannot be read, the [OSError] of [open] leaves
    [initialize]: the statement is outside every [try]. *)
Lemma initialize_read_error_raises :
  (initialize "correct-horse" (with_fault OpenFails (reopened demo_stored))).1
  = Raise OSError.
Proof. vm_compute. reflexivity. Qed.

Lemma initialize_failure_locks_witness :
  fs (world demo_corrupted) !! vault_file (self demo_corrupted)
  = Some [Byte.x00; Byte.x01; Byte.x02] /\
  next_open_ok (world demo_corrupted) /\
  (initialize "correct-horse" demo_corrupted).1 = Ret PyNone /\
  initialized (self (initialize "correct-horse" demo_corrupted).2) = false.
Proof.
  split; [reflexivity|]. split; [reflexivity|].
  pose proof (initialize_failure_locks "correct-horse" demo_corrupted
                [Byte.x00; Byte.x01; Byte.x02] eq_refl
                ltac:(discriminate) eq_refl) as [Hr Hl].
  split; [exact Hr|].
  change (decode_container [Byte.x00; Byte.x01; Byte.x02] "correct-horse")
    with (@Raise Vault ValueError) in Hl.
  exact (proj1 Hl).
Defined.

(** A write that fails after 20 bytes: [save_vault] returns [False], the
    container that held 9280 bytes is left with 20, and the store no
    longer opens with its password. *)
Lemma save_vault_truncates_container :
  len <$> fs (world demo_interrupted) !! "vault.enc" = Some 9280 /\
  (save_vault demo_interrupted).1 = Ret false /\
  len <$> fs (world (save_vault demo_interrupted).2) !! "vault.enc"
  = Some 20 /\
  initialized
    (self (initialize "correct-horse"
             (reopened (save_vault demo_interrupted).2)).2) = false.
Proof. split_and!; vm_compute; reflexivity. Qed.

(** A rotation whose write fails after 40 bytes: the object is as before,
    and the file is left with those 40 bytes. *)
Lemma rotation_failed_write :
  (change_master_password "correct-horse" "new-pass"
     (with_fault (TransferFails 40) demo_stored)).1 = Ret false /\
  self (change_master_password "correct-horse" "new-pass"
          (with_fault (TransferFails 40) demo_stored)).2
  = self demo_stored /\
  len <$> fs (world (change_master_password "correct-horse" "new-pass"
                       (with_fault (TransferFails 40) demo_stored)).2)
            !! "vault.enc" = Some 40.
Proof. split_and!; vm_compute; reflexivity. Qed.

Lemma removal_semantics_witness :
  initialized (self demo_stored) = true /\
  vault (self (remove_password "github" None demo_stored).2)
  = delete "github" (vault (self demo_stored)).
Proof.
  assert (Hinit : initialized (self demo_stored) = true)
    by (vm_compute; reflexivity).
  split; [exact Hinit|].
  apply (removal_semantics demo_stored "github" Hinit).
  eexists. vm_compute. reflexivity.
Defined.
End Runs.

(** * Further properties of the engine *)

(** ** The order of the listings *)

Lemma ascii_compare_trans_le (a b c : ascii) :
  Ascii.compare a b <> Gt -> Ascii.compare b c <> Gt ->
  Ascii.compare a c <> Gt.
Proof.
  unfold Ascii.compare. rewrite !N.compare_le_iff. lia.
Qed.

Lemma string_leb_trans (s1 s2 s3 : string) :
  String.leb s1 s2 = true -> String.leb s2 s3 = true ->
  String.leb s1 s3 = true.
Proof.
  unfold String.leb. revert s2 s3.
  induction s1 as [|a s1 IH]; intros [|b s2] [|c s3]; simpl; try done.
  destruct (Ascii.compare a b) eqn:Hab; try done;
    destruct (Ascii.compare b c) eqn:Hbc; try done.
  - apply Ascii.compare_eq_iff in Hab as ->.
    apply Ascii.compare_eq_iff in Hbc as ->.
    replace (Ascii.compare c c) with Eq
      by (unfold Ascii.compare; by rewrite N.compare_refl).
    apply IH.
  - apply Ascii.compare_eq_iff in Hab as ->. by rewrite Hbc.
  - apply Ascii.compare_eq_iff in Hbc as ->. by rewrite Hab.
  - intros _ _.
    assert (Hlt : Ascii.compare a c = Lt); [|by rewrite Hlt].
    revert Hab Hbc. unfold Ascii.compare.
    rewrite !N.compare_lt_iff. lia.
Qed.

Lemma str_le_trans : Transitive str_le.
Proof.
  intros a b c. unfold str_le. rewrite !Is_true_true. apply string_leb_trans.
Qed.

Lemma str_le_total : Total str_le.
Proof.
  intros a b. unfold str_le. rewrite !Is_true_true. apply String.leb_total.
Qed.

Lemma sorted_keys_spec {V} (v : gmap string V) :
  StronglySorted str_le (sorted (map fst (map_to_list v))) /\
  NoDup (sorted (map fst (map_to_list v))) /\
  forall k, k ∈ sorted (map fst (map_to_list v)) <-> is_Some (v !! k).
Proof.
  split_and!.
  - pose proof str_le_trans. pose proof str_le_total.
    apply StronglySorted_merge_sort; apply _.
  - unfold sorted. rewrite merge_sort_Permutation.
    apply NoDup_fst_map_to_list.
  - apply elem_of_sorted_keys.
Qed.

(** ** The store *)

Section StoreFacts.
Context `{Library}.

Lemma world_after_save_frame (m : Mem) :
  entropy (world_after_save m) = entropy (world m) /\
  drawn (world_after_save m) = drawn (world m) /\
  today (world_after_save m) = today (world m) /\
  forall path, path <> vault_file (self m) ->
               fs (world_after_save m) !! path = fs (world m) !! path.
Proof.
  unfold world_after_save. rewrite save_vault_unfold. cbv zeta.
  destruct (negb _); [done|].
  destruct (_encrypt _ _ _); [|done].
  unfold written.
  destruct (mjoin _) as [[|n]|]; cbn [snd world]; try done;
    destruct (bytes_add _ _); cbn [snd world set_fs set_faults entropy drawn
      today fs]; split_and!; try done;
    intros path Hp; by rewrite ?lookup_insert_ne.
Qed.

Lemma add_password_given service username p url notes (m : Mem) :
  initialized (self m) = true ->
  let e := {| password := p; url := url; notes := notes;
              date_modified := today (world m) |} in
  let m1 := {| self := with_vault (self m)
                         (vault_with_entry (vault (self m)) service username e);
               world := world m |} in
  add_password service username (Some p) url notes m
  = (Ret (saved m1), {| self := self m1; world := world_after_save m1 |}).
Proof.
  intros Hinit.
  destruct (add_password_unfold service username (Some p) url notes m Hinit)
    as (p' & w0 & Hp & Heq).
  by destruct (Hp p eq_refl) as [-> ->].
Qed.

Lemma add_password_generated service username url notes (m : Mem) :
  initialized (self m) = true ->
  exists cs,
    length cs = 16%nat /\
    Forall (fun c => c ∈ String.list_ascii_of_string
                          (char_pool true true true true)) cs /\
    let w0 := set_drawn (drawn (world m) + 16) (world m) in
    let e := {| password := String.string_of_list_ascii cs; url := url;
                notes := notes; date_modified := today (world m) |} in
    let m1 := {| self := with_vault (self m)
                           (vault_with_entry (vault (self m))
                                             service username e);
                 world := w0 |} in
    add_password service username None url notes m
    = (Ret (saved m1), {| self := self m1; world := world_after_save m1 |}).
Proof.
  intros Hinit.
  destruct (generate_password_spec 16 true true true true m)
    as (cs & Hlen & Hall & Hrun).
  exists cs. split_and!; [done | done |]. cbv zeta.
  unfold add_password. run_step. rewrite Hinit. cbn [negb].
  unfold bind at 1. rewrite Hrun.
  change (Z.to_nat 16) with 16%nat. run_step.
  set (e := {| password := _; url := _; notes := _; date_modified := _ |}).
  destruct (vault_with_entry_two_steps (vault (self m)) service username e)
    as (us & Hus & Heq).
  cbv zeta in Hus, Heq. unfold _get_current_date.
  case_bool_decide as Hin; run_step; rewrite Hus; run_step;
    cbn [set_drawn today]; fold e; rewrite Heq, save_vault_eq; done.
Qed.

Lemma lookup_entry_with_entry (v : Vault) service username e :
  lookup_entry (vault_with_entry v service username e) service username
  = Some e.
Proof.
  unfold lookup_entry, vault_with_entry.
  rewrite lookup_insert_eq. simpl. apply lookup_insert_eq.
Qed.

Lemma lookup_entry_with_entry_other (v : Vault) service username e s u :
  (s, u) <> (service, username) ->
  lookup_entry (vault_with_entry v service username e) s u = lookup_entry v s u.
Proof.
  intros Hne. unfold lookup_entry, vault_with_entry.
  destruct (decide (s = service)) as [->|Hs].
  - assert (u <> username) by congruence.
    rewrite lookup_insert_eq. simpl. rewrite lookup_insert_ne by done.
    by destruct (v !! service).
  - by rewrite lookup_insert_ne.
Qed.

(** X1.  A locked store is inert: every mutating method returns [False]
    and changes neither the object nor the world, and every query answers
    as on an empty vault. *)
Theorem locked_store_inert (m : Mem) :
  initialized (self m) = false ->
  (forall service username pw url notes,
      add_password service username pw url notes m = (Ret false, m)) /\
  (forall service username,
      remove_password service username m = (Ret false, m)) /\
  save_vault m = (Ret false, m) /\
  (forall current new,
      change_master_password current new m = (Ret false, m)) /\
  (forall service username,
      get_password service username m = (Ret None, m)) /\
  get_all_services m = (Ret [], m) /\
  (forall service, get_usernames service m = (Ret [], m)).
Proof.
  intros Hinit. split_and!.
  - intros. by apply add_password_locked.
  - intros. by rewrite remove_password_unfold, Hinit.
  - rewrite save_vault_unfold. cbv zeta. by rewrite Hinit.
  - intros. rewrite change_master_password_unfold. cbv zeta. by rewrite Hinit.
  - intros. by rewrite get_password_unfold, Hinit.
  - by rewrite get_all_services_unfold, Hinit.
  - intros service. unfold get_usernames. run_step. by rewrite Hinit.
Qed.

(** X2.  What [add_password] stores is what [get_password] returns: on
    an unlocked store, after adding with a given password, the entry read
    back carries that password, URL and notes and the date of the day,
    whether or not the save succeeded, and every other entry reads as
    before. *)
Theorem add_password_then_get (m : Mem)
    (service username pw url notes : string) :
  initialized (self m) = true ->
  let m' := (add_password service username (Some pw) url notes m).2 in
  get_password service username m'
  = (Ret (Some {| password := pw; url := url; notes := notes;
                  date_modified := today (world m) |}), m') /\
  forall s u, (s, u) <> (service, username) ->
              get_password s u m'
              = (Ret (lookup_entry (vault (self m)) s u), m').
Proof.
  intros Hinit. cbv zeta. rewrite add_password_given by done. cbv zeta.
  cbn [snd]. split.
  - rewrite get_password_unfold. cbn [self with_vault initialized vault].
    by rewrite Hinit, lookup_entry_with_entry.
  - intros s u Hne. rewrite get_password_unfold.
    cbn [self with_vault initialized vault].
    by rewrite Hinit, lookup_entry_with_entry_other.
Qed.

Lemma saved_fault (m : Mem) (f : io_fault) :
  mjoin (head (faults (world m))) = Some f -> saved m = false.
Proof.
  intros Hf. unfold saved. by rewrite (save_vault_fault m f Hf).
Qed.

Lemma world_after_save_open_fails (m : Mem) :
  mjoin (head (faults (world m))) = Some OpenFails ->
  fs (world_after_save m) = fs (world m).
Proof.
  intros Hf. unfold world_after_save. rewrite save_vault_unfold. cbv zeta.
  destruct (negb _); [done|].
  destruct (_encrypt _ _ _); [|done].
  unfold written. by rewrite Hf.
Qed.

(** X3.  A failed save does not undo the change: when the [open] of
    the save is to fail, [add_password] and [remove_password] return
    [False], yet the entry is stored, respectively gone, in memory, and
    the files are as they were. *)
Theorem failed_save_keeps_mutation (m : Mem) (service username : string) :
  initialized (self m) = true ->
  mjoin (head (faults (world m))) = Some OpenFails ->
  (forall pw url notes,
      let r := add_password service username (Some pw) url notes m in
      r.1 = Ret false /\
      lookup_entry (vault (self r.2)) service username
      = Some {| password := pw; url := url; notes := notes;
                date_modified := today (world m) |} /\
      fs (world r.2) = fs (world m)) /\
  (is_Some (lookup_entry (vault (self m)) service username) ->
   let r := remove_password service (Some username) m in
   r.1 = Ret false /\
   lookup_entry (vault (self r.2)) service username = None /\
   fs (world r.2) = fs (world m)).
Proof.
  intros Hinit Hf. split.
  - intros pw url notes. cbv zeta. rewrite add_password_given by done.
    cbv zeta. cbn [fst snd self world with_vault vault].
    rewrite (saved_fault _ OpenFails) by done.
    rewrite world_after_save_open_fails by done.
    by rewrite lookup_entry_with_entry.
  - intros [e He]. cbv zeta. rewrite remove_password_unfold, Hinit.
    unfold lookup_entry in He.
    destruct (vault (self m) !! service) as [us|] eqn:Hs; [|done].
    simpl in He. unfold has_target. rewrite Hs.
    rewrite bool_decide_eq_true_2 by eauto.
    cbn [andb fst snd self world with_vault vault].
    rewrite (saved_fault _ OpenFails) by done.
    rewrite world_after_save_open_fails by done.
    split_and!; [done| |done].
    unfold lookup_entry. rewrite (vault_without_lookup _ _ _ _ Hs).
    case_bool_decide; simpl; [done | apply lookup_delete_eq].
Qed.

(** X4.  Without a password, [add_password] stores a generated one: 16
    characters, each from the four classes, drawn with 16 draws of the
    entropy source. *)
Theorem add_password_generates (m : Mem) (service username url' notes' : string) :
  initialized (self m) = true ->
  let m' := (add_password service username None url' notes' m).2 in
  exists e,
    get_password service username m' = (Ret (Some e), m') /\
    String.length (password e) = 16%nat /\
    (forall c, c ∈ String.list_ascii_of_string (password e) ->
               c ∈ String.list_ascii_of_string
                     (ascii_uppercase +:+ ascii_lowercase +:+ digits
                        +:+ punctuation)) /\
    url e = url' /\ notes e = notes' /\ date_modified e = today (world m) /\
    drawn (world m') = (drawn (world m) + 16)%nat.
Proof.
  intros Hinit. cbv zeta.
  destruct (add_password_generated service username url' notes' m Hinit)
    as (cs & Hlen & Hall & Heq).
  cbv zeta in Heq. rewrite Heq. cbn [snd].
  eexists. split.
  { rewrite get_password_unfold. cbn [self with_vault initialized vault].
    by rewrite Hinit, lookup_entry_with_entry. }
  cbn [password url notes date_modified world].
  split_and!; try done.
  - by rewrite string_length_of_list.
  - rewrite String.list_ascii_of_string_of_list_ascii.
    by apply Forall_forall.
  - by rewrite (proj1 (proj2 (world_after_save_frame _))).
Qed.

Lemma vault_without_with_entry (v : Vault) service username e :
  no_empty_service v ->
  lookup_entry v service username = None ->
  vault_without (vault_with_entry v service username e) service
                (Some username) = v.
Proof.
  intros Hv Hnone. unfold vault_without, vault_with_entry, lookup_entry in *.
  rewrite lookup_insert_eq.
  destruct (v !! service) as [us|] eqn:Hs; simpl in *.
  - rewrite delete_insert_id by done.
    rewrite bool_decide_eq_false_2 by by eapply Hv.
    rewrite insert_insert_eq. by apply insert_id.
  - rewrite delete_insert_id by apply lookup_empty.
    rewrite bool_decide_eq_true_2 by done.
    rewrite delete_insert_eq. by apply delete_id.
Qed.

(** X5.  Adding an entry that was not there and removing it again gives
    back the vault, when no service of it was empty; a service created
    for the entry goes with it. *)
Theorem add_then_remove_restores (m : Mem) (service username : string)
    (pw : option string) (url notes : string) :
  initialized (self m) = true ->
  no_empty_service (vault (self m)) ->
  lookup_entry (vault (self m)) service username = None ->
  vault (self (remove_password service (Some username)
                 (add_password service username pw url notes m).2).2)
  = vault (self m).
Proof.
  intros Hinit Hv Hnone.
  destruct (add_password_unfold service username pw url notes m Hinit)
    as (p & w0 & _ & ->). cbv zeta. cbn [snd].
  rewrite remove_password_unfold. cbn [self with_vault initialized vault].
  rewrite Hinit. unfold has_target at 1.
  unfold vault_with_entry at 1. rewrite lookup_insert_eq.
  rewrite bool_decide_eq_true_2 by (rewrite lookup_insert_eq; eauto).
  cbn [andb snd self with_vault vault].
  by apply vault_without_with_entry.
Qed.

(** X6.  The listings are the keys, in ascending order and once each:
    [get_all_services] returns the services of the vault and
    [get_usernames] the usernames of a service (none for a service that
    is not there), sorted by code point and without repetition, and
    neither changes anything. *)
Theorem listings_sorted (m : Mem) :
  initialized (self m) = true ->
  (exists l,
      get_all_services m = (Ret l, m) /\
      StronglySorted str_le l /\ NoDup l /\
      forall service, service ∈ l <-> is_Some (vault (self m) !! service)) /\
  (forall service,
      exists l,
        get_usernames service m = (Ret l, m) /\
        StronglySorted str_le l /\ NoDup l /\
        forall username,
          username ∈ l
          <-> is_Some (lookup_entry (vault (self m)) service username)).
Proof.
  intros Hinit. split.
  - eexists. rewrite get_all_services_unfold, Hinit.
    split; [done|]. apply sorted_keys_spec.
  - intros service. unfold get_usernames, lookup_entry. run_step.
    rewrite Hinit.
    destruct (vault (self m) !! service) as [us|]; simpl.
    + eexists. split; [done|]. apply sorted_keys_spec.
    + exists []. split_and!; [done | constructor | constructor |].
      intros u. rewrite elem_of_nil. split; [done | by intros [? ?]].
Qed.

(** X7.  Saving twice writes the same bytes: after a successful save,
    a second save whose [open] succeeds also succeeds and leaves the
    container byte for byte as the first did (salt, IV and key are
    reused). *)
Theorem save_twice_same_container (m : Mem) :
  (save_vault m).1 = Ret true ->
  next_open_ok (world (save_vault m).2) ->
  (save_vault (save_vault m).2).1 = Ret true /\
  fs (world (save_vault (save_vault m).2).2) !! vault_file (self m)
  = fs (world (save_vault m).2) !! vault_file (self m).
Proof.
  intros H1 Hopen.
  pose proof (save_vault_true m H1)
    as (Hinit & s & i & c & Hs & Hi & He & Hfs & _).
  rewrite Hfs.
  pose proof (save_vault_self m) as Hself.
  rewrite (save_vault_unfold (save_vault m).2). cbv zeta.
  rewrite Hself, Hinit. cbn [negb]. rewrite Hi, He.
  unfold written. unfold next_open_ok in Hopen. rewrite Hopen, Hs, Hi.
  cbn [bytes_add fst snd world set_fs fs].
  split; [done|]. by rewrite lookup_insert_eq, <- app_assoc.
Qed.
End StoreFacts.

(** ** Padding, ciphertext and container sizes *)

(** X8.  [_unpad] checks nothing: on a byte string that ends in the byte
    [x] it never raises; it returns the empty string when [x] is zero and
    otherwise the input without its last [x] bytes (nothing is left when
    there are fewer), whatever those bytes are. *)
Theorem unpad_spec (data : bytes) (x : byte) :
  last data = Some x ->
  _unpad data
  = Ret (if decide (x = Byte.x00) then []
         else take (length data - Byte.to_nat x) data).
Proof.
  intros Hlast. case_decide as Hx.
  - subst x. by apply unpad_last_zero.
  - apply last_Some in Hlast as [l ->]. unfold _unpad.
    rewrite py_index_last. cbn [obind].
    assert (0 < int_of_byte x).
    { unfold int_of_byte. destruct x; simpl; try lia. done. }
    rewrite py_slice_drop_last by done. do 2 f_equal.
    unfold int_of_byte. lia.
Qed.

Section Sizes.
Context `{Library}.

Lemma decode_container_size (data : bytes) (P : string) (v : Vault) :
  decode_container data P = Ret v -> 48 <= len data /\ len data mod 16 = 0.
Proof.
  unfold decode_container. cbn [_derive_key obind].
  set (i := py_slice (py_slice data None (Some 32)) (Some 16) (Some 32)).
  set (ct := py_slice data (Some 32) None).
  destruct (_decrypt ct _ _) as [d|] eqn:Hdec; [|done]. intros _.
  unfold _decrypt, Cipher in Hdec.
  destruct (bool_decide (len _ = 16 \/ _)); [|done].
  case_bool_decide as Hi; [|done]. cbn [obind decryptor_run] in Hdec.
  destruct (Z.eqb_spec (len ct mod 16) 0) as [Hmod|]; [|done].
  cbn [obind] in Hdec.
  assert (Hn : (length ct / 16 <> 0)%nat).
  { intros Hz. rewrite Hz in Hdec. cbn [cbc_decrypt_blocks] in Hdec.
    by rewrite unpad_nil in Hdec. }
  assert (Hct : (16 <= length ct)%nat).
  { destruct (decide (16 <= length ct)%nat); [done|].
    rewrite Nat.div_small in Hn by lia. done. }
  revert Hi Hmod Hct. subst i ct. unfold len.
  change 32 with (Z.of_nat 32). change 16 with (Z.of_nat 16).
  rewrite !py_slice_prefix, py_slice_suffix, py_slice_range by lia.
  rewrite !length_take, !length_drop, length_take.
  intros Hi Hmod Hct.
  assert (Hlen : (48 <= length data)%nat) by lia.
  split; [lia|].
  replace (Z.of_nat (length data))
    with (Z.of_nat (length data - 32) + 2 * Z.of_nat 16) by lia.
  by rewrite Z.mod_add by lia.
Qed.

(** X9.  A container that is not made of a salt, an IV and at least one
    whole block never unlocks: when the file is not empty and its length
    is below 48 or not a multiple of 16, [initialize] leaves the store
    locked, for every master password. *)
Theorem malformed_container_stays_locked (P : string) (m : Mem)
    (data : bytes) :
  fs (world m) !! vault_file (self m) = Some data ->
  data <> [] ->
  next_open_ok (world m) ->
  len data < 48 \/ len data mod 16 <> 0 ->
  (initialize P m).1 = Ret PyNone /\
  initialized (self (initialize P m).2) = false.
Proof.
  intros Hfile Hne Hopen Hsize. rewrite initialize_unfold, Hfile. cbv zeta.
  unfold next_open_ok in Hopen. rewrite Hopen.
  assert ((len data =? 0) = false) as ->.
  { apply Z.eqb_neq. destruct data; [done|]. unfold len. simpl. lia. }
  split; [done|]. cbn [snd]. unfold loaded.
  destruct (decode_container data P) as [v|] eqn:Hdec; [|done].
  apply decode_container_size in Hdec. lia.
Qed.

(** X10.  [initialize] creates the vault when there is no container, and
    when the container is an empty file that can be opened: it returns
    [None], the store is unlocked on an empty vault, salt and IV are 16
    fresh bytes each (32 draws in all) and the key is derived from the
    password and that salt. *)
Theorem initialize_creates (P : string) (m : Mem) :
  fs (world m) !! vault_file (self m) = None \/
  (fs (world m) !! vault_file (self m) = Some [] /\ next_open_ok (world m)) ->
  (initialize P m).1 = Ret PyNone /\
  vault (self (initialize P m).2) = ∅ /\
  keyed_by P (self (initialize P m).2) /\
  drawn (world (initialize P m).2) = (drawn (world m) + 32)%nat /\
  vault_file (self (initialize P m).2) = vault_file (self m).
Proof.
  assert (Hc : forall m0,
             vault (self (created P m0)) = ∅ /\
             keyed_by P (self (created P m0)) /\
             drawn (world (created P m0)) = (drawn (world m0) + 32)%nat /\
             vault_file (self (created P m0)) = vault_file (self m0)).
  { intros m0. split_and!; [done | apply keyed_by_created | | done].
    unfold created. cbn [world].
    rewrite (proj1 (proj2 (world_after_save_frame _))).
    cbn [world set_drawn drawn]. lia. }
  intros [Hnone|[Hempty Hopen]]; rewrite initialize_unfold.
  - rewrite Hnone. cbn [fst snd]. split; [done|]. apply Hc.
  - rewrite Hempty. cbv zeta. unfold next_open_ok in Hopen. rewrite Hopen.
    change (len [] =? 0) with true. cbn [fst snd]. split; [done|].
    destruct (Hc {| self := self m; world := after_open (world m) |})
      as (? & ? & ? & ?).
    by split_and!.
Qed.

(** X11.  The vault counts as created even when it could not be
    written: with no container and a failing [open], [initialize] still
    returns [None] with the store unlocked, and there is still no
    container. *)
Theorem initialize_unlocked_without_container (P : string) (m : Mem) :
  fs (world m) !! vault_file (self m) = None ->
  mjoin (head (faults (world m))) = Some OpenFails ->
  (initialize P m).1 = Ret PyNone /\
  initialized (self (initialize P m).2) = true /\
  fs (world (initialize P m).2) !! vault_file (self m) = None.
Proof.
  intros Hnone Hf. rewrite initialize_unfold, Hnone. cbn [fst snd].
  split_and!; [done | done |].
  unfold created. cbn [world].
  rewrite world_after_save_open_fails by done. done.
Qed.
End Sizes.

Section CiphertextSize.
Context `{Library}.

Hypothesis aes_block_length : forall key block : bytes,
  length key = 32%nat -> length block = 16%nat ->
  length (aes_encrypt_block key block) = 16%nat.

(** X12.  The ciphertext is the plaintext rounded up to the next whole
    block, a full block more when the plaintext is already aligned: with a
    32-byte key and a 16-byte IV, [_encrypt] returns
    [16 * (len(data) // 16 + 1)] bytes. *)
Theorem encrypt_length (data key iv : bytes) :
  length key = 32%nat -> length iv = 16%nat ->
  exists c,
    _encrypt data (Some key) (Some iv) = Ret c /\
    len c = 16 * (len data / 16 + 1).
Proof.
  intros Hk Hi.
  destruct (encrypt_spec data key iv Hk Hi) as (padded & Hp & He & Hd & _).
  eexists. split; [exact He|].
  unfold len at 1.
  rewrite (cbc_encrypt_length aes_block_length _ key iv padded Hk Hi Hd).
  rewrite <- Hd.
  destruct (pad_spec data) as (n & b & Hn & Hr & _ & Hpad).
  rewrite Hpad in Hp. injection Hp as <-.
  rewrite length_app, length_replicate. unfold len in *.
  pose proof (Z.div_mod (Z.of_nat (length data)) 16 ltac:(lia)). lia.
Qed.
End CiphertextSize.

(** ** Rotation, then unlocking *)

Section RotationFacts.
Context `{Library}.

Hypothesis aes_block_length : forall key block : bytes,
  length key = 32%nat -> length block = 16%nat ->
  length (aes_encrypt_block key block) = 16%nat.
Hypothesis aes_decrypt_encrypt : forall key block : bytes,
  length key = 32%nat -> length block = 16%nat ->
  aes_decrypt_block key (aes_encrypt_block key block) = block.
Hypothesis kdf_length : forall pw s : bytes,
  length (pbkdf2_hmac_sha256 pw s) = 32%nat.
Hypothesis utf8_round_trip : forall t : string,
  utf8_decode (utf8_encode t) = Ret t.
Hypothesis json_round_trip : forall v : Vault,
  json_loads (json_dumps v) = Ret v.

(** X13.  After a successful rotation the new password unlocks the
    container: a fresh store on the same file whose [open] succeeds is
    left by [initialize] with the new password exactly as the rotated
    store is, attribute by attribute, so with the same vault. *)
Theorem rotation_round_trip (P current new : string) (m : Mem) :
  unlocked_by P m ->
  (change_master_password current new m).1 = Ret true ->
  next_open_ok (world (change_master_password current new m).2) ->
  (initialize new (reopened (change_master_password current new m).2)).1
  = Ret PyNone /\
  self (initialize new (reopened (change_master_password current new m).2)).2
  = self (change_master_password current new m).2 /\
  vault (self (change_master_password current new m).2) = vault (self m).
Proof.
  intros Hm Hok.
  assert (Hk : keyed_by new (self (change_master_password current new m).2)).
  { apply keyed_by_unlocked. by eapply ub_rotate. }
  revert Hok Hk. rewrite change_master_password_unfold. cbv zeta.
  destruct (negb _); [done|].
  destruct (salt (self m)); [|done]. destruct (master_key (self m)); [|done].
  case_bool_decide; [|done].
  set (m1 := {| self := _; world := _ |}).
  destruct (saved m1) eqn:Hsaved; [|done].
  cbn [fst snd self world]. intros _ Hk Hopen.
  apply saved_true in Hsaved.
  pose proof (initialize_after_save aes_block_length aes_decrypt_encrypt
                kdf_length utf8_round_trip json_round_trip new m1 Hk Hsaved
                Hopen) as Hinit.
  unfold reopened. cbn [self world].
  change (world_after_save m1) with (world (save_vault m1).2).
  rewrite Hinit. by cbn [fst snd self].
Qed.
End RotationFacts.

(** ** The scorer *)

Lemma length_band (L : Z) :
  ((L <? 8) = true /\ (L >=? 12) = false /\ (L >=? 8) = false
   /\ (L >? 16) = false) \/
  ((L <? 8) = false /\ (L >=? 12) = false /\ (L >=? 8) = true
   /\ (L >? 16) = false) \/
  ((L <? 8) = false /\ (L >=? 12) = true /\ (L >=? 8) = true
   /\ (L >? 16) = false) \/
  ((L <? 8) = false /\ (L >=? 12) = true /\ (L >=? 8) = true
   /\ (L >? 16) = true).
Proof.
  rewrite !Z.geb_leb, !Z.gtb_ltb.
  destruct (Z.ltb_spec L 8), (Z.leb_spec 12 L), (Z.leb_spec 8 L),
    (Z.ltb_spec 16 L); try lia; tauto.
Qed.

Lemma strength_parts (password : string) :
  let pw := String.list_ascii_of_string password in
  let L := len pw in
  let lo := existsb islower pw in
  let up := existsb isupper pw in
  let di := existsb isdigit pw in
  let sp := existsb (fun c => negb (isalnum c)) pw in
  let rep := re_search repeat_pattern pw in
  let s1 := alphabet_run pw in
  let s2 := digit_run pw in
  check_password_strength password
  = (Z.max 0 (Z.min 100 (raw_score L lo up di sp rep s1 s2)),
     strength_text (Z.max 0 (Z.min 100 (raw_score L lo up di sp rep s1 s2))),
     feedback_of L lo up di sp rep s1 s2).
Proof.
  cbv zeta. unfold check_password_strength, raw_score, feedback_of,
    strength_text, alphabet_run, digit_run.
  cbn [sequences sequential_check].
  generalize (String.list_ascii_of_string password). intros pw.
  generalize (len pw) (existsb islower pw) (existsb isupper pw)
    (existsb isdigit pw) (existsb (fun c => negb (isalnum c)) pw)
    (re_search repeat_pattern pw)
    (has_window (String.list_ascii_of_string "abcdefghijklmnopqrstuvwxyz") pw)
    (has_window (String.list_ascii_of_string "0123456789") pw).
  clear pw. intros L lo up di sp rep s1 s2.
  destruct (length_band L) as [(H1 & H2 & H3 & H4)|[(H1 & H2 & H3 & H4)
    |[(H1 & H2 & H3 & H4)|(H1 & H2 & H3 & H4)]]];
    rewrite ?H1, ?H2, ?H3, ?H4; clear H1 H2 H3 H4;
    destruct lo, up, di, sp, rep, s1, s2; reflexivity.
Qed.

Lemma points_bounds (b : bool) (n : Z) : 0 <= n -> 0 <= points b n <= n.
Proof. destruct b; simpl; lia. Qed.

Lemma base_bounds (L : Z) :
  0 <= (if L <? 8 then 0 else if L >=? 12 then 25 else 15) <= 25.
Proof. destruct (L <? 8), (L >=? 12); lia. Qed.


Lemma elem_of_notice (x : string) (b : bool) (message : string) :
  x ∈ notice b message <-> b = true /\ x = message.
Proof.
  destruct b; simpl.
  - rewrite list_elem_of_singleton. by split; [|intros [_ ?]].
  - rewrite elem_of_nil. by split; [|intros [? _]].
Qed.

Lemma elem_of_notices (x : string) (b1 b2 b3 b4 b5 b6 b7 b8 : bool)
    (m1 m2 m3 m4 m5 m6 m7 m8 : string) :
  x ∈ notice b1 m1 ++ notice b2 m2 ++ notice b3 m3 ++ notice b4 m4
      ++ notice b5 m5 ++ notice b6 m6 ++ notice b7 m7 ++ notice b8 m8
  <-> (b1 = true /\ x = m1) \/ (b2 = true /\ x = m2) \/ (b3 = true /\ x = m3)
      \/ (b4 = true /\ x = m4) \/ (b5 = true /\ x = m5)
      \/ (b6 = true /\ x = m6) \/ (b7 = true /\ x = m7)
      \/ (b8 = true /\ x = m8).
Proof. by rewrite !elem_of_app, !elem_of_notice. Qed.

(** Membership of a given message in a feedback list: the disjuncts
    for the other messages are refuted by the text of the message. *)
Ltac notice_iff :=
  split;
  [ intros Hmem;
    repeat (destruct Hmem as [[Hcond Htext]|Hmem];
            [first [discriminate Htext | exact Hcond]|]);
    destruct Hmem as [Hcond Htext];
    first [discriminate Htext | exact Hcond]
  | intros Hcond;
    repeat first [ left; split; [exact Hcond | reflexivity]
                 | split; [exact Hcond | reflexivity]
                 | right ] ].

Lemma score_bounds (password : string) :
  0 <= (check_password_strength password).1.1 <= 90.
Proof.
  rewrite strength_parts. cbv zeta. cbn [fst snd].
  unfold raw_score.
  set (pw := String.list_ascii_of_string password).
  pose proof (base_bounds (len pw)).
  pose proof (points_bounds (existsb islower pw) 10 ltac:(lia)).
  pose proof (points_bounds (existsb isupper pw) 10 ltac:(lia)).
  pose proof (points_bounds (existsb isdigit pw) 10 ltac:(lia)).
  pose proof (points_bounds (existsb (fun c => negb (isalnum c)) pw) 10
                ltac:(lia)).
  pose proof (points_bounds (re_search repeat_pattern pw) 10 ltac:(lia)).
  pose proof (points_bounds (alphabet_run pw) 10 ltac:(lia)).
  pose proof (points_bounds (digit_run pw) 10 ltac:(lia)).
  pose proof (points_bounds (len pw >? 16) 10 ltac:(lia)).
  pose proof (points_bounds (existsb islower pw && existsb isupper pw
                 && existsb isdigit pw
                 && existsb (fun c => negb (isalnum c)) pw) 15 ltac:(lia)).
  lia.
Qed.

(** X14.  The score lies between 0 and 90: the clamp at 100 is never
    reached, since the length tiers, the four classes and the two bonuses
    add up to 90 at most; and the category is the band of that score. *)
Theorem score_range (password : string) :
  0 <= (check_password_strength password).1.1 <= 90 /\
  (check_password_strength password).1.2
  = strength_text (check_password_strength password).1.1.
Proof.
  split; [apply score_bounds|].
  rewrite strength_parts. cbv zeta. by cbn [fst snd].
Qed.







Lemma rstar_true (m : matcher) (fuel : nat) (s : list ascii) :
  rstar m fuel s (fun _ => true) = true.
Proof. destruct fuel; simpl; [done | apply orb_true_r]. Qed.

Lemma rmatch_repeat_pattern_spec (s : list ascii) :
  rmatch repeat_pattern s (fun _ => true) = true
  <-> exists a rest,
        s = a :: "\"%char :: "1"%char :: "1"%char :: rest /\
        a <> ascii_of_nat 10.
Proof.
  split.
  - destruct s as [|a [|b [|c [|d rest]]]];
      cbn [rmatch repeat_pattern rat_least]; rewrite ?andb_false_r; try done.
    intros (Ha%negb_true_iff%Ascii.eqb_neq
            & (->%Ascii.eqb_eq & (->%Ascii.eqb_eq & (->%Ascii.eqb_eq & _)
      %andb_prop)%andb_prop)%andb_prop)%andb_prop.
    eauto.
  - intros (a & rest & -> & Ha). cbn [rmatch repeat_pattern rat_least].
    rewrite rstar_true. apply Ascii.eqb_neq in Ha. rewrite Ha. reflexivity.
Qed.

Lemma re_search_spec (r : regex) (s : list ascii) :
  re_search r s = true
  <-> exists pre post, s = pre ++ post /\ rmatch r post (fun _ => true) = true.
Proof.
  induction s as [|c s IH]; cbn [re_search].
  - rewrite orb_false_r. split.
    + intros Hm. by exists [], [].
    + intros (pre & post & Heq & Hm). symmetry in Heq.
      by apply app_eq_nil in Heq as [-> ->].
  - rewrite orb_true_iff, IH. split.
    + intros [Hm|(pre & post & -> & Hm)].
      * by exists [], (c :: s).
      * by exists (c :: pre), post.
    + intros (pre & post & Heq & Hm). destruct pre as [|c' pre].
      * left. simpl in Heq. by subst post.
      * right. injection Heq as -> ->. by exists pre, post.
Qed.

(** X18.  What the check for repeated characters finds: the feedback
    warns of repeating characters exactly when the password contains a
    character other than a newline followed by a backslash and two
    characters [1]. *)
Theorem repeat_feedback (password : string) :
  "Avoid repeating characters" ∈ (check_password_strength password).2
  <-> exists pre a rest,
        String.list_ascii_of_string password
        = pre ++ a :: "\"%char :: "1"%char :: "1"%char :: rest /\
        a <> ascii_of_nat 10.
Proof.
  rewrite strength_parts. cbv zeta. cbn [snd]. unfold feedback_of.
  set (pw := String.list_ascii_of_string password).
  etrans; [apply elem_of_notices|].
  assert (Hre : re_search repeat_pattern pw = true
                <-> exists pre a rest,
                      pw = pre ++ a :: "\"%char :: "1"%char :: "1"%char :: rest
                      /\ a <> ascii_of_nat 10).
  { rewrite re_search_spec. setoid_rewrite rmatch_repeat_pattern_spec. split.
    - intros (pre & post & -> & a & rest & -> & Ha). eauto.
    - intros (pre & a & rest & -> & Ha). eauto 10. }
  rewrite <- Hre. notice_iff.
Qed.

(** ** The handlers of the interface *)

Lemma run_bind_eq {A B} (x : M A) (k : A -> M B) (m m' : Mem) (a : A) :
  x m = (Ret a, m') -> bind x k m = k a m'.
Proof. intros Hx. unfold bind. by rewrite Hx. Qed.

Section HandlerFacts.
Context `{Library}.



(** X20.  The two dialogs of the login screen do the same to the store:
    for every password, [try_unlock_vault] and
    [create_new_vault_with_password] with the password confirmed leave the
    same object and the same world, and the one raises when the other
    does; they differ in the box they show. *)
Theorem dialogs_do_the_same (P : string) (m : Mem) :
  (Gui.try_unlock_vault P m).2 = (Gui.create_new_vault_with_password P P m).2
  /\ ((Gui.try_unlock_vault P m).1 = Ret None
      <-> (Gui.create_new_vault_with_password P P m).1
          = Ret (Some (showinfo "Success" "New vault created successfully")))
  /\ forall e, (Gui.try_unlock_vault P m).1 = Raise e
               <-> (Gui.create_new_vault_with_password P P m).1 = Raise e.
Proof.
  unfold Gui.try_unlock_vault, Gui.create_new_vault_with_password.
  case_bool_decide as HP; [by split_and!|].
  rewrite (bool_decide_eq_false_2 (P <> P)) by (by intros []).
  unfold bind. destruct (initialize P m) as [[r|e] m1]; [|by split_and!].
  unfold get_self. cbn [fst snd].
  destruct (initialized (self m1)); by split_and!.
Qed.

(** X21.  The dialog that creates a vault opens the one that is there:
    when the container exists, is not empty and can be read,
    [create_new_vault_with_password] writes nothing; with a password that
    decodes the container it reports that a new vault was created and the
    store holds the vault of the container, and with any other password it
    reports a failure and the store is locked. *)
Theorem create_dialog_opens_existing (P : string) (m : Mem) (data : bytes) :
  P <> "" ->
  fs (world m) !! vault_file (self m) = Some data ->
  data <> [] ->
  next_open_ok (world m) ->
  let r := Gui.create_new_vault_with_password P P m in
  fs (world r.2) = fs (world m) /\
  match decode_container data P with
  | Ret v =>
      r.1 = Ret (Some (showinfo "Success" "New vault created successfully"))
      /\ initialized (self r.2) = true /\ vault (self r.2) = v
  | Raise _ =>
      r.1 = Ret (Some (showerror "Error" "Failed to create new vault"))
      /\ initialized (self r.2) = false
  end.
Proof.
  intros HP Hfile Hdata Hopen. cbv zeta.
  unfold Gui.create_new_vault_with_password.
  rewrite (bool_decide_eq_false_2 (P = "")) by done.
  rewrite (bool_decide_eq_false_2 (P <> P)) by (by intros []).
  assert (Hinit : initialize P m
                  = (Ret PyNone,
                     loaded data P {| self := self m;
                                      world := after_open (world m) |})).
  { rewrite initialize_unfold, Hfile. cbv zeta.
    unfold next_open_ok in Hopen. rewrite Hopen.
    assert ((len data =? 0) = false) as ->; [|done].
    apply Z.eqb_neq. unfold len. destruct data; [done | simpl; lia]. }
  rewrite (run_bind_eq _ _ _ _ _ Hinit). run_step.
  unfold loaded. destruct (decode_container data P) as [v|e];
    cbn [self world session initialized vault fst snd after_open set_faults fs];
    by split_and!.
Qed.

(** X22.  Without a container the unlock dialog accepts any password
    that is not empty: [try_unlock_vault] shows no error, and the store is
    unlocked on an empty vault under the key derived from that
    password. *)
Theorem unlock_dialog_without_container (P : string) (m : Mem) :
  P <> "" ->
  fs (world m) !! vault_file (self m) = None ->
  let r := Gui.try_unlock_vault P m in
  r.1 = Ret None /\ vault (self r.2) = ∅ /\ keyed_by P (self r.2).
Proof.
  intros HP Hfile. cbv zeta. unfold Gui.try_unlock_vault.
  rewrite (bool_decide_eq_false_2 (P = "")) by done.
  assert (Hinit : initialize P m = (Ret PyNone, created P m))
    by by rewrite initialize_unfold, Hfile.
  rewrite (run_bind_eq _ _ _ _ _ Hinit). run_step.
  pose proof (keyed_by_created P m) as Hk.
  rewrite (proj1 Hk). by split_and!.
Qed.

(** X23.  The dialog blames the password for a failed write: on a store
    whose key is the one derived from the current password, when the
    [open] of the save is to fail, [change_master_password] of the
    interface reports an incorrect current password; the object is as
    before and so are the files. *)
Theorem rotation_dialog_blames_password (P new : string) (m : Mem)
    (f : io_fault) :
  keyed_by P (self m) ->
  P <> "" -> new <> "" ->
  mjoin (head (faults (world m))) = Some f ->
  let r := Gui.change_master_password P new new m in
  r.1 = Ret (Some (showerror "Error" "Incorrect current password")) /\
  self r.2 = self m /\
  (f = OpenFails -> fs (world r.2) = fs (world m)).
Proof.
  intros (Hinit & s & i & Hs & _ & _ & _ & Hk) HP Hnew Hf. cbv zeta.
  unfold Gui.change_master_password.
  rewrite !(bool_decide_eq_false_2 (_ = "")) by done. cbn [orb].
  rewrite (bool_decide_eq_false_2 (new <> new)) by (by intros []).
  set (m1 := {| self := with_keys (self m)
                          (Some (urandom_bytes (world m) 16))
                          (Some (pbkdf2_hmac_sha256 (utf8_encode new)
                                   (urandom_bytes (world m) 16)));
                world := set_drawn (drawn (world m) + 16) (world m) |}).
  assert (Hrot : change_master_password P new m
                 = (Ret false, {| self := self m;
                                  world := world_after_save m1 |})).
  { rewrite change_master_password_unfold. cbv zeta.
    rewrite Hinit, Hs, Hk. cbn [negb].
    rewrite bool_decide_eq_true_2 by done. fold m1.
    by rewrite (saved_fault m1 f). }
  rewrite (run_bind_eq _ _ _ _ _ Hrot). cbn [fst snd self world ret].
  split_and!; [done | done |].
  intros ->. by rewrite world_after_save_open_fails.
Qed.
End HandlerFacts.

Section LockFacts.
Context `{Library}.

Hypothesis aes_block_length : forall key block : bytes,
  length key = 32%nat -> length block = 16%nat ->
  length (aes_encrypt_block key block) = 16%nat.
Hypothesis aes_decrypt_encrypt : forall key block : bytes,
  length key = 32%nat -> length block = 16%nat ->
  aes_decrypt_block key (aes_encrypt_block key block) = block.
Hypothesis kdf_length : forall pw s : bytes,
  length (pbkdf2_hmac_sha256 pw s) = 32%nat.
Hypothesis utf8_round_trip : forall t : string,
  utf8_decode (utf8_encode t) = Ret t.
Hypothesis json_round_trip : forall v : Vault,
  json_loads (json_dumps v) = Ret v.

(** X24.  Locking forgets, unlocking finds again: after a save that
    succeeded on the default path, [lock_vault] leaves a locked object
    with no key, salt or vault and touches no file, and [try_unlock_vault]
    with the master password then shows no error and gives back the
    object as it was before the lock. *)
Theorem lock_then_unlock (P : string) (m : Mem) :
  keyed_by P (self m) ->
  P <> "" ->
  vault_file (self m) = "password_vault.enc" ->
  (save_vault m).1 = Ret true ->
  next_open_ok (world (save_vault m).2) ->
  let m1 := (Gui.lock_vault (save_vault m).2).2 in
  self m1 = __init__ "password_vault.enc" /\
  world m1 = world (save_vault m).2 /\
  (get_password "" "" m1).1 = Ret None /\
  Gui.try_unlock_vault P m1
  = (Ret None, {| self := self m; world := after_open (world m1) |}).
Proof.
  intros Hk HP Hpath Hsave Hopen. cbv zeta.
  unfold Gui.lock_vault, put_self. cbn [snd self world].
  split_and!; [done | done | by rewrite get_password_unfold |].
  unfold Gui.try_unlock_vault.
  rewrite (bool_decide_eq_false_2 (P = "")) by done.
  pose proof (initialize_after_save aes_block_length aes_decrypt_encrypt
                kdf_length utf8_round_trip json_round_trip P m Hk Hsave Hopen)
    as Hinit.
  rewrite Hpath in Hinit.
  rewrite (run_bind_eq _ _ _ _ _ Hinit). run_step.
  by rewrite (proj1 Hk).
Qed.
End LockFacts.

(** X25.  The meter shows the category of the scorer: for a password
    that is not empty, [update_password_strength] labels the meter with
    the category that [check_password_strength] returns, gives it the
    style of that category (red for "Very Weak", orange for "Weak",
    yellow for "Medium", green for "Strong"), and a value between 0 and
    90. *)
Theorem meter_agrees_with_label (password : string) :
  password <> "" ->
  let d := update_password_strength password in
  let category := (check_password_strength password).1.2 in
  label_text d = "Password Strength: " +:+ category /\
  meter_style d = Some (style_of category) /\
  meter_value d = (check_password_strength password).1.1 /\
  0 <= meter_value d <= 90.
Proof.
  intros Hp. cbv zeta. unfold update_password_strength.
  rewrite bool_decide_eq_false_2 by done.
  pose proof (score_bounds password) as Hrange.
  revert Hrange. rewrite strength_parts. cbv zeta.
  cbn [fst snd meter_value label_text meter_style].
  generalize (Z.max 0 (Z.min 100
    (raw_score (len (String.list_ascii_of_string password))
       (existsb islower (String.list_ascii_of_string password))
       (existsb isupper (String.list_ascii_of_string password))
       (existsb isdigit (String.list_ascii_of_string password))
       (existsb (fun c => negb (isalnum c))
          (String.list_ascii_of_string password))
       (re_search repeat_pattern (String.list_ascii_of_string password))
       (alphabet_run (String.list_ascii_of_string password))
       (digit_run (String.list_ascii_of_string password))))).
  intros score Hrange. split_and!; [done | | done | lia | lia].
  unfold strength_text, style_of.
  destruct (score <=? 25); [done|].
  destruct (score <=? 50); [done|].
  by destruct (score <=? 75).
Qed.

(** ** Concrete runs of the further properties *)

Lemma unpad_spec_witness :
  last [Byte.x41; Byte.x42; Byte.x02] = Some Byte.x02 /\
  _unpad [Byte.x41; Byte.x42; Byte.x02] = Ret [Byte.x41].
Proof.
  split; [reflexivity|].
  exact (unpad_spec [Byte.x41; Byte.x42; Byte.x02] Byte.x02 eq_refl).
Defined.

Lemma encrypt_length_witness :
  length (replicate 32 Byte.x2a) = 32%nat /\
  length (replicate 16 Byte.x07) = 16%nat /\
  exists c,
    @_encrypt demo_library [Byte.x68; Byte.x69]
      (Some (replicate 32 Byte.x2a)) (Some (replicate 16 Byte.x07)) = Ret c /\
    len c = 16.
Proof.
  split; [reflexivity|]. split; [reflexivity|].
  exact (@encrypt_length demo_library demo_aes_block_length
           [Byte.x68; Byte.x69] (replicate 32 Byte.x2a)
           (replicate 16 Byte.x07) eq_refl eq_refl).
Defined.

Lemma meter_agrees_with_label_witness :
  "aaaaaaaa" <> "" /\
  meter_style (update_password_strength "aaaaaaaa")
  = Some (style_of (check_password_strength "aaaaaaaa").1.2).
Proof.
  assert (Hne : "aaaaaaaa" <> "") by discriminate.
  split; [exact Hne|].
  exact (proj1 (proj2 (meter_agrees_with_label "aaaaaaaa" Hne))).
Defined.

Section FurtherRuns.
#[local] Existing Instance demo_library.

Lemma demo_unlocked_initialized : initialized (self demo_unlocked) = true.
Proof. vm_compute. reflexivity. Qed.

Lemma demo_stored_initialized : initialized (self demo_stored) = true.
Proof. vm_compute. reflexivity. Qed.

Lemma demo_unlocked_vault : vault (self demo_unlocked) = ∅.
Proof. vm_compute. reflexivity. Qed.

Lemma locked_store_inert_witness :
  initialized (self demo_fresh) = false /\
  save_vault demo_fresh = (Ret false, demo_fresh) /\
  get_all_services demo_fresh = (Ret [], demo_fresh).
Proof.
  split; [reflexivity|].
  pose proof (locked_store_inert demo_fresh eq_refl)
    as (_ & _ & Hsave & _ & _ & Hall & _).
  split; [exact Hsave | exact Hall].
Defined.

Lemma add_password_then_get_witness :
  initialized (self demo_unlocked) = true /\
  get_password "github" "alice" demo_stored
  = (Ret (Some {| password := "P@ssw0rd1"; url := ""; notes := "";
                  date_modified := today (world demo_unlocked) |}),
     demo_stored).
Proof.
  split; [exact demo_unlocked_initialized|].
  exact (proj1 (add_password_then_get demo_unlocked "github" "alice"
                  "P@ssw0rd1" "" "" demo_unlocked_initialized)).
Defined.

Lemma demo_failing_initialized : initialized (self demo_failing) = true.
Proof. vm_compute. reflexivity. Qed.

Lemma demo_failing_fault :
  mjoin (head (faults (world demo_failing))) = Some OpenFails.
Proof. vm_compute. reflexivity. Qed.

Lemma demo_failing_keyed : keyed_by "correct-horse" (self demo_failing).
Proof. apply keyed_by_initialize; vm_compute; reflexivity. Qed.

Lemma failed_save_keeps_mutation_witness :
  initialized (self demo_failing) = true /\
  mjoin (head (faults (world demo_failing))) = Some OpenFails /\
  (add_password "github" "alice" (Some "P@ssw0rd1") "" "" demo_failing).1
  = Ret false.
Proof.
  split; [exact demo_failing_initialized|].
  split; [exact demo_failing_fault|].
  exact (proj1 (proj1 (failed_save_keeps_mutation demo_failing
                         "github" "alice" demo_failing_initialized
                         demo_failing_fault)
                  "P@ssw0rd1" "" "")).
Defined.

Lemma add_password_generates_witness :
  initialized (self demo_unlocked) = true /\
  exists e,
    (get_password "github" "alice"
       (add_password "github" "alice" None "" "" demo_unlocked).2).1
    = Ret (Some e) /\
    String.length (password e) = 16%nat.
Proof.
  split; [exact demo_unlocked_initialized|].
  destruct (add_password_generates demo_unlocked "github" "alice" "" ""
              demo_unlocked_initialized) as (e & Hget & Hlen & _).
  exists e. split; [by rewrite Hget | exact Hlen].
Defined.

Lemma add_then_remove_restores_witness :
  initialized (self demo_unlocked) = true /\
  no_empty_service (vault (self demo_unlocked)) /\
  lookup_entry (vault (self demo_unlocked)) "github" "alice" = None /\
  vault (self (remove_password "github" (Some "alice") demo_stored).2)
  = vault (self demo_unlocked).
Proof.
  assert (Hv : no_empty_service (vault (self demo_unlocked))).
  { intros service usernames. rewrite demo_unlocked_vault.
    by rewrite lookup_empty. }
  assert (Hnone : lookup_entry (vault (self demo_unlocked)) "github" "alice"
                  = None) by by rewrite demo_unlocked_vault.
  split; [exact demo_unlocked_initialized|]. split; [exact Hv|].
  split; [exact Hnone|].
  exact (add_then_remove_restores demo_unlocked "github" "alice"
           (Some "P@ssw0rd1") "" "" demo_unlocked_initialized Hv Hnone).
Defined.

Lemma listings_sorted_witness :
  initialized (self demo_stored) = true /\
  exists l,
    get_all_services demo_stored = (Ret l, demo_stored) /\
    StronglySorted str_le l /\ NoDup l.
Proof.
  split; [exact demo_stored_initialized|].
  destruct (proj1 (listings_sorted demo_stored demo_stored_initialized))
    as (l & Hl & Hsorted & Hnodup & _).
  exists l. by split_and!.
Defined.

Lemma save_twice_same_container_witness :
  (save_vault demo_stored).1 = Ret true /\
  next_open_ok (world (save_vault demo_stored).2) /\
  (save_vault (save_vault demo_stored).2).1 = Ret true.
Proof.
  assert (H1 : (save_vault demo_stored).1 = Ret true)
    by (vm_compute; reflexivity).
  assert (H2 : next_open_ok (world (save_vault demo_stored).2))
    by (vm_compute; reflexivity).
  split; [exact H1|]. split; [exact H2|].
  exact (proj1 (save_twice_same_container demo_stored H1 H2)).
Defined.

Lemma malformed_container_stays_locked_witness :
  fs (world demo_corrupted) !! vault_file (self demo_corrupted)
  = Some [Byte.x00; Byte.x01; Byte.x02] /\
  next_open_ok (world demo_corrupted) /\
  len [Byte.x00; Byte.x01; Byte.x02] < 48 /\
  initialized (self (initialize "wrong-password" demo_corrupted).2) = false.
Proof.
  split; [reflexivity|]. split; [reflexivity|]. split; [reflexivity|].
  exact (proj2 (malformed_container_stays_locked "wrong-password"
                  demo_corrupted [Byte.x00; Byte.x01; Byte.x02] eq_refl
                  ltac:(discriminate) eq_refl (or_introl eq_refl))).
Defined.

Lemma initialize_creates_witness :
  fs (world demo_fresh) !! vault_file (self demo_fresh) = None /\
  (initialize "correct-horse" demo_fresh).1 = Ret PyNone /\
  vault (self demo_unlocked) = ∅ /\
  drawn (world demo_unlocked) = (drawn (world demo_fresh) + 32)%nat.
Proof.
  split; [reflexivity|].
  pose proof (initialize_creates "correct-horse" demo_fresh
                (or_introl eq_refl)) as (Hr & Hv & _ & Hd & _).
  split; [exact Hr|]. split; [exact Hv | exact Hd].
Defined.

Lemma initialize_unlocked_without_container_witness :
  fs (world (with_fault OpenFails demo_fresh))
    !! vault_file (self (with_fault OpenFails demo_fresh)) = None /\
  mjoin (head (faults (world (with_fault OpenFails demo_fresh))))
  = Some OpenFails /\
  initialized
    (self (initialize "correct-horse" (with_fault OpenFails demo_fresh)).2)
  = true.
Proof.
  split; [reflexivity|]. split; [reflexivity|].
  exact (proj1 (proj2 (initialize_unlocked_without_container "correct-horse"
                         (with_fault OpenFails demo_fresh) eq_refl eq_refl))).
Defined.

Lemma rotation_round_trip_witness :
  unlocked_by "correct-horse" demo_unlocked /\
  (change_master_password "correct-horse" "new-pass" demo_unlocked).1
  = Ret true /\
  next_open_ok
    (world (change_master_password "correct-horse" "new-pass"
              demo_unlocked).2) /\
  (initialize "new-pass"
     (reopened (change_master_password "correct-horse" "new-pass"
                  demo_unlocked).2)).1 = Ret PyNone.
Proof.
  assert (H1 : (change_master_password "correct-horse" "new-pass"
                  demo_unlocked).1 = Ret true) by (vm_compute; reflexivity).
  assert (H2 : next_open_ok
                 (world (change_master_password "correct-horse" "new-pass"
                           demo_unlocked).2)) by (vm_compute; reflexivity).
  split; [exact demo_unlocked_by|]. split; [exact H1|]. split; [exact H2|].
  exact (proj1 (rotation_round_trip demo_aes_block_length
                  demo_aes_decrypt_encrypt demo_kdf_length
                  demo_utf8_round_trip demo_json_round_trip
                  "correct-horse" "correct-horse" "new-pass" demo_unlocked
                  demo_unlocked_by H1 H2)).
Defined.


Lemma create_dialog_opens_existing_witness :
  "correct-horse" <> "" /\
  fs (world demo_corrupted) !! vault_file (self demo_corrupted)
  = Some [Byte.x00; Byte.x01; Byte.x02] /\
  next_open_ok (world demo_corrupted) /\
  fs (world (Gui.create_new_vault_with_password "correct-horse"
               "correct-horse" demo_corrupted).2)
  = fs (world demo_corrupted).
Proof.
  assert (H1 : "correct-horse" <> "") by discriminate.
  split; [exact H1|]. split; [reflexivity|]. split; [reflexivity|].
  exact (proj1 (create_dialog_opens_existing "correct-horse" demo_corrupted
                  [Byte.x00; Byte.x01; Byte.x02] H1 eq_refl
                  ltac:(discriminate) eq_refl)).
Defined.

Lemma unlock_dialog_without_container_witness :
  "correct-horse" <> "" /\
  fs (world demo_fresh) !! vault_file (self demo_fresh) = None /\
  (Gui.try_unlock_vault "correct-horse" demo_fresh).1 = Ret None.
Proof.
  assert (H1 : "correct-horse" <> "") by discriminate.
  split; [exact H1|]. split; [reflexivity|].
  exact (proj1 (unlock_dialog_without_container "correct-horse" demo_fresh
                  H1 eq_refl)).
Defined.

Lemma rotation_dialog_blames_password_witness :
  keyed_by "correct-horse" (self demo_failing) /\
  mjoin (head (faults (world demo_failing))) = Some OpenFails /\
  (Gui.change_master_password "correct-horse" "new-pass" "new-pass"
     demo_failing).1
  = Ret (Some (showerror "Error" "Incorrect current password")).
Proof.
  split; [exact demo_failing_keyed|]. split; [exact demo_failing_fault|].
  exact (proj1 (rotation_dialog_blames_password "correct-horse" "new-pass"
                  demo_failing OpenFails demo_failing_keyed
                  ltac:(discriminate) ltac:(discriminate)
                  demo_failing_fault)).
Defined.

Lemma demo_default_keyed : keyed_by "correct-horse" (self demo_default).
Proof. apply keyed_by_initialize; vm_compute; reflexivity. Qed.

Lemma lock_then_unlock_witness :
  keyed_by "correct-horse" (self demo_default) /\
  vault_file (self demo_default) = "password_vault.enc" /\
  (save_vault demo_default).1 = Ret true /\
  next_open_ok (world (save_vault demo_default).2) /\
  (Gui.try_unlock_vault "correct-horse"
     (Gui.lock_vault (save_vault demo_default).2).2).1 = Ret None.
Proof.
  assert (H1 : vault_file (self demo_default) = "password_vault.enc")
    by (vm_compute; reflexivity).
  assert (H2 : (save_vault demo_default).1 = Ret true)
    by (vm_compute; reflexivity).
  assert (H3 : next_open_ok (world (save_vault demo_default).2))
    by (vm_compute; reflexivity).
  split; [exact demo_default_keyed|]. split; [exact H1|].
  split; [exact H2|]. split; [exact H3|].
  pose proof (lock_then_unlock demo_aes_block_length demo_aes_decrypt_encrypt
                demo_kdf_length demo_utf8_round_trip demo_json_round_trip
                "correct-horse" demo_default demo_default_keyed
                ltac:(discriminate) H1 H2 H3) as (_ & _ & _ & Hunlock).
  by rewrite Hunlock.
Defined.
End FurtherRuns.
